(** * XmlNode: the XML element tree of the XMPP gateway

    A shallow embedding of [xmpp_stanza.hpp] / [xmpp_stanza.cpp]:
    the escaping function [xml_escape], the [sanitize] pipeline, the
    [XmlNode] class with its constructors, accessors, child list and
    serializer, and the scoped builder [XmlSubNode].

    Objects live in a store indexed by addresses, since nodes refer to each
    other through raw pointers ([parent]) and owning pointers ([children]).
    [std::string] is [string] (a sequence of bytes, NUL included),
    [std::map<std::string, std::string>] is a finite map whose traversal
    visits the keys in ascending byte-wise order. *)

From Stdlib Require Import Ascii String List Arith Lia.
From stdpp Require Import gmap strings list fin_maps sorting.

Local Open Scope stdpp_scope.

(** ** Strings *)

Module Str.

(** [std::string::npos] is [None]; a found position is [Some]. *)
Fixpoint rfind (c : ascii) (s : string) : option nat :=
  match s with
  | EmptyString => None
  | String a rest =>
      match rfind c rest with
      | Some n => Some (S n)
      | None => if Ascii.eqb a c then Some 0 else None
      end
  end.

(** [s.substr(pos)], for [pos <= s.size()]. *)
Fixpoint substr_from (pos : nat) (s : string) : string :=
  match pos, s with
  | 0, _ => s
  | S p, String _ rest => substr_from p rest
  | S _, EmptyString => EmptyString
  end.

(** [s.substr(0, n)]. *)
Fixpoint substr_to (n : nat) (s : string) : string :=
  match n, s with
  | S p, String a rest => String a (substr_to p rest)
  | _, _ => EmptyString
  end.

Definition empty (s : string) : bool :=
  match s with EmptyString => true | _ => false end.

(** [s.data()] read as a [const char*]: the bytes before the first NUL. *)
Fixpoint c_str (s : string) : string :=
  match s with
  | EmptyString => EmptyString
  | String a rest =>
      if Ascii.eqb a "000"%char then EmptyString else String a (c_str rest)
  end.

(** Occurrence of a byte in a string. *)
Fixpoint mem (c : ascii) (s : string) : bool :=
  match s with
  | EmptyString => false
  | String a rest => Ascii.eqb a c || mem c rest
  end.

(** [sub] occurs somewhere in [s]. *)
Fixpoint contains (sub s : string) : bool :=
  String.prefix sub s ||
  match s with
  | EmptyString => false
  | String _ rest => contains sub rest
  end.

(** [s] ends with [suf]. *)
Fixpoint ends_with (suf s : string) : bool :=
  String.eqb s suf ||
  match s with
  | EmptyString => false
  | String _ rest => ends_with suf rest
  end.

End Str.

(** ** Escaping *)

(** The body of the [switch] in [xml_escape]: what one byte appends to
    [res]. *)
Definition xml_escape_step (res : string) (c : ascii) : string :=
  match c with
  | "&" => res +:+ "&amp;"
  | "<" => res +:+ "&lt;"
  | ">" => res +:+ "&gt;"
  | "034" => res +:+ "&quot;"
  | "'" => res +:+ "&apos;"
  | _ => res +:+ String c EmptyString
  end%char.

(** The [for] loop of [xml_escape], over the bytes of [data] that remain. *)
Fixpoint xml_escape_loop (data : string) (res : string) : string :=
  match data with
  | EmptyString => res
  | String c rest => xml_escape_loop rest (xml_escape_step res c)
  end.

Definition xml_escape (data : string) : string :=
  xml_escape_loop data EmptyString.

(** The replacement table as the specification words it: five reserved
    characters, each with its entity. *)
Definition reserved_table : list (ascii * string) :=
  [("&"%char, "&amp;"); ("<"%char, "&lt;"); (">"%char, "&gt;");
   ("034"%char, "&quot;"); ("'"%char, "&apos;")].

Definition entity_of (c : ascii) : option string :=
  snd <$> List.find (fun p => Ascii.eqb (fst p) c) reserved_table.

Definition is_reserved (c : ascii) : bool :=
  match entity_of c with Some _ => true | None => false end.

(** Escaping as the specification words it: every reserved character is
    replaced by its entity, every other byte is kept. *)
Fixpoint xml_escape_spec (data : string) : string :=
  match data with
  | EmptyString => EmptyString
  | String c rest =>
      match entity_of c with
      | Some e => e +:+ xml_escape_spec rest
      | None => String c (xml_escape_spec rest)
      end
  end.

(** No reserved character occurs in [s]. *)
Fixpoint unreserved (s : string) : bool :=
  match s with
  | EmptyString => true
  | String c rest => negb (is_reserved c) && unreserved rest
  end.

(** ** The encoding collaborators

    [utils::is_valid_utf8], [utils::remove_invalid_xml_chars] and
    [utils::convert_to_utf8] are declared in [utils/encoding.hpp], outside
    this translation unit.  [sanitize] and everything built on it take them
    as an interface; each returns a value, as the specification gives their
    signatures. *)
Class Encoding := {
  is_valid_utf8 : string -> bool;
  remove_invalid_xml_chars : string -> string;
  convert_to_utf8 : string -> string -> string
}.

(** The default value of [sanitize]'s second argument. *)
Definition default_encoding : string := "ISO-8859-1".

Definition sanitize `{Encoding} (data encoding : string) : string :=
  if is_valid_utf8 (Str.c_str data)
  then xml_escape (remove_invalid_xml_chars data)
  else
    xml_escape
      (remove_invalid_xml_chars (convert_to_utf8 data (Str.c_str encoding))).

(** ** [std::map<std::string, std::string>] *)

Module StdMap.

Abbreviation t := (gmap string string).

(** Keys compare as [std::less<std::string>] does: byte-wise,
    lexicographically, bytes as unsigned values. *)
Definition key_le (p q : string * string) : Prop := String.le p.1 q.1.

#[global] Instance key_le_dec : RelDecision key_le.
Proof. intros p q. unfold key_le. apply _. Defined.

Definition key_lt (p q : string * string) : Prop :=
  String.ltb p.1 q.1 = true.

(** In-order traversal ([begin()] to [end()]): the bindings by ascending
    key. *)
Definition iter (m : t) : list (string * string) :=
  merge_sort key_le (map_to_list m).

(** [m[k] = v]. *)
Definition assign (k v : string) (m : t) : t := <[k := v]> m.

(** [m[k] = v] as it acts on the sequence of bindings kept in key order:
    the binding takes the place of the one with the same key, or else its
    place before the first larger key. *)
Fixpoint assign_sorted (k v : string) (l : list (string * string))
  : list (string * string) :=
  match l with
  | [] => [(k, v)]
  | (k', v') :: l' =>
      if String.ltb k k' then (k, v) :: l
      else if String.eqb k k' then (k, v) :: l'
      else (k', v') :: assign_sorted k v l'
  end.

(** [m[k]] used as a reference: a missing key is first bound to the empty
    string. *)
Definition subscript (k : string) (m : t) : string * t :=
  match m !! k with
  | Some v => (v, m)
  | None => (EmptyString, <[k := EmptyString]> m)
  end.

(** [m.at(k)]; [None] stands for [std::out_of_range]. *)
Definition at_ (k : string) (m : t) : option string := m !! k.

(** [m.erase(k)]: the number of elements removed, and the map left. *)
Definition erase (k : string) (m : t) : nat * t :=
  match m !! k with
  | Some _ => (1, delete k m)
  | None => (0, m)
  end.

End StdMap.

(** ** The node *)

(** Addresses of objects, in automatic or dynamic storage alike. *)
Definition addr := positive.

(** The data members of [XmlNode].  [parent] is a raw pointer ([None] is
    [nullptr]); [children] holds owning pointers. *)
Record XmlNode := mkXmlNode {
  name : string;
  parent : option addr;
  attributes : gmap string string;
  children : list addr;
  inner : string;
  tail : string
}.

(** The objects alive, by address. *)
Abbreviation store := (gmap addr XmlNode).

(** The internal separator between a namespace and a local name. *)
Definition sep : ascii := "001"%char.

(** [XmlNode(const std::string& name, XmlNode* parent)] *)
Definition XmlNode_ctor (name_ : string) (parent_ : option addr) : XmlNode :=
  match Str.rfind sep name_ with
  | None => mkXmlNode name_ parent_ ∅ [] EmptyString EmptyString
  | Some n =>
      mkXmlNode (Str.substr_from (n + 1) name_) parent_
        (StdMap.assign "xmlns" (Str.substr_to n name_) ∅)
        [] EmptyString EmptyString
  end.

(** [XmlNode(const std::string& name)] *)
Definition XmlNode_ctor_name (name_ : string) : XmlNode :=
  XmlNode_ctor name_ None.

(** [XmlNode(const std::string& xmlns, const std::string& name,
    XmlNode* parent)] *)
Definition XmlNode_ctor_ns (xmlns name_ : string) (parent_ : option addr)
  : XmlNode :=
  mkXmlNode name_ parent_ (StdMap.assign "xmlns" xmlns ∅)
    [] EmptyString EmptyString.

(** [XmlNode(const std::string& xmlns, const std::string& name)] *)
Definition XmlNode_ctor_ns_name (xmlns name_ : string) : XmlNode :=
  XmlNode_ctor_ns xmlns name_ None.

(** *** Member functions that touch the object's own members only *)

Definition set_attribute (name_ value : string) (this : XmlNode) : XmlNode :=
  mkXmlNode (name this) (parent this)
    (StdMap.assign name_ value (attributes this))
    (children this) (inner this) (tail this).

Definition set_tail (data : string) (this : XmlNode) : XmlNode :=
  mkXmlNode (name this) (parent this) (attributes this) (children this)
    (inner this) data.

Definition add_to_tail (data : string) (this : XmlNode) : XmlNode :=
  mkXmlNode (name this) (parent this) (attributes this) (children this)
    (inner this) (tail this +:+ data).

Definition set_inner (data : string) (this : XmlNode) : XmlNode :=
  mkXmlNode (name this) (parent this) (attributes this) (children this)
    data (tail this).

Definition add_to_inner (data : string) (this : XmlNode) : XmlNode :=
  mkXmlNode (name this) (parent this) (attributes this) (children this)
    (inner this +:+ data) (tail this).

Definition get_inner (this : XmlNode) : string := inner this.

Definition get_tail (this : XmlNode) : string := tail this.

Definition get_parent (this : XmlNode) : option addr := parent this.

Definition set_name (name_ : string) (this : XmlNode) : XmlNode :=
  mkXmlNode name_ (parent this) (attributes this) (children this)
    (inner this) (tail this).

Definition get_name (this : XmlNode) : string := name this.

Definition has_children (this : XmlNode) : bool :=
  negb (match children this with [] => true | _ => false end).

(** [children.back().get()]; [None] where the C++ behaviour is undefined. *)
Definition get_last_child (this : XmlNode) : option addr :=
  last (children this).

Definition get_tag (name_ : string) (this : XmlNode) : string :=
  match StdMap.at_ name_ (attributes this) with
  | Some value => value
  | None => EmptyString
  end.

Definition del_tag (name_ : string) (this : XmlNode) : bool * XmlNode :=
  let '(count, attrs) := StdMap.erase name_ (attributes this) in
  (negb (Nat.eqb count 0),
   mkXmlNode (name this) (parent this) attrs (children this)
     (inner this) (tail this)).

(** [node[name]]: the value the returned reference designates, and the
    node after the access. *)
Definition subscript (name_ : string) (this : XmlNode) : string * XmlNode :=
  let '(value, attrs) := StdMap.subscript name_ (attributes this) in
  (value,
   mkXmlNode (name this) (parent this) attrs (children this)
     (inner this) (tail this)).

(** Running a member function on the object at [this]. *)
Definition call (f : XmlNode -> XmlNode) (this : addr) (h : store)
  : option store :=
  n ← h !! this; Some (<[this := f n]> h).

(** *** Member functions that follow pointers *)

(** A loop over a container whose body may fail. *)
Fixpoint for_each {A S : Type} (body : A -> S -> option S) (l : list A)
  (s : S) : option S :=
  match l with
  | [] => Some s
  | x :: l' => s' ← body x s; for_each body l' s'
  end.

Definition set_parent (p : option addr) (n : XmlNode) : XmlNode :=
  mkXmlNode (name n) p (attributes n) (children n) (inner n) (tail n).

Definition push_back (c : addr) (n : XmlNode) : XmlNode :=
  mkXmlNode (name n) (parent n) (attributes n) (children n ++ [c])
    (inner n) (tail n).

(** [add_child(std::unique_ptr<XmlNode> child)]: the pointer returned and
    the store after the call. *)
Definition add_child (this child : addr) (h : store)
  : option (addr * store) :=
  h1 ← call (set_parent (Some this)) child h;
  let ret := child in
  h2 ← call (push_back child) this h1;
  Some (ret, h2).

(** What the defaulted move constructor leaves behind.  The raw pointer is
    copied and the vector is left empty; the strings and the map are left
    valid and otherwise unspecified by the standard, and are taken empty
    here, as the common library implementations leave them. *)
Definition moved_from (n : XmlNode) : XmlNode :=
  mkXmlNode EmptyString (parent n) ∅ [] EmptyString EmptyString.

(** [XmlNode(XmlNode&& node) = default], constructing at [this]. *)
Definition XmlNode_move (this node : addr) (h : store) : option store :=
  n ← h !! node; Some (<[this := n]> (<[node := moved_from n]> h)).

(** [XmlNode(const XmlNode& node)], constructing at [this].  The recursion
    follows the child pointers of [node]; [fuel] bounds its depth. *)
Fixpoint XmlNode_copy (fuel : nat) (this node : addr) (h : store)
  : option store :=
  match fuel with
  | 0 => None
  | S fuel' =>
      n ← h !! node;
      let h0 :=
        <[this := mkXmlNode (name n) None (attributes n) [] (inner n)
                    (tail n)]> h in
      for_each
        (fun child h1 =>
           let p := fresh (dom h1) in
           h2 ← XmlNode_copy fuel' p child h1;
           snd <$> add_child this p h2)
        (children n) h0
  end.

(** [add_child(XmlNode&& child)] *)
Definition add_child_move (this child : addr) (h : store)
  : option (addr * store) :=
  let new_node := fresh (dom h) in
  h1 ← XmlNode_move new_node child h;
  add_child this new_node h1.

(** [add_child(const XmlNode& child)] *)
Definition add_child_copy (fuel : nat) (this child : addr) (h : store)
  : option (addr * store) :=
  let new_node := fresh (dom h) in
  h1 ← XmlNode_copy fuel new_node child h;
  add_child this new_node h1.

(** *** Serialization *)

(** [os << x] on the [std::ostringstream]: the text written so far, then
    [x]. *)
Definition put (os x : string) : string := os +:+ x.

Infix "<<" := put (at level 67, left associativity) : stdpp_scope.

(** The body of the loop over the attributes. *)
Definition render_attribute `{Encoding} (res : string)
  (it : string * string) : string :=
  res << " " << it.1 << "='" << sanitize it.2 default_encoding +:+ "'".

(** [to_string()]; [fuel] bounds the depth of the recursion through the
    children. *)
Fixpoint to_string `{Encoding} (fuel : nat) (h : store) (this : addr)
  : option string :=
  match fuel with
  | 0 => None
  | S fuel' =>
      n ← h !! this;
      let res := EmptyString << "<" << name n in
      let res := fold_left render_attribute (StdMap.iter (attributes n)) res in
      res ← (if negb (has_children n) && Str.empty (inner n)
             then Some (res << "/>")
             else
               let res := res << ">" +:+ sanitize (inner n) default_encoding in
               res ← for_each
                       (fun child res =>
                          s ← to_string fuel' h child; Some (res << s))
                       (children n) res;
               Some (res << "</" << get_name n << ">"));
      Some (res << sanitize (tail n) default_encoding)
  end.

(** ** The scoped builder *)

(** An [XmlSubNode] object: the address of the object (of its [XmlNode]
    base) and the reference member [parent_to_add]. *)
Record XmlSubNode := mkXmlSubNode {
  self : addr;
  parent_to_add : addr
}.

(** [XmlSubNode(XmlNode& parent_ref, const std::string& name)],
    constructing at [this]. *)
Definition XmlSubNode_ctor (this parent_ref : addr) (name_ : string)
  (h : store) : XmlSubNode * store :=
  (mkXmlSubNode this parent_ref, <[this := XmlNode_ctor_name name_]> h).

(** [XmlSubNode(XmlNode& parent_ref, const std::string& xmlns,
    const std::string& name)], constructing at [this]. *)
Definition XmlSubNode_ctor_ns (this parent_ref : addr) (xmlns name_ : string)
  (h : store) : XmlSubNode * store :=
  (mkXmlSubNode this parent_ref,
   <[this := XmlNode_ctor_ns_name xmlns name_]> h).

(** [~XmlSubNode()]: the body moves the object into the parent; then the
    base and the members (moved from) are destroyed and the storage ends. *)
Definition XmlSubNode_dtor (b : XmlSubNode) (h : store)
  : option (addr * store) :=
  '(attached, h1) ← add_child_move (parent_to_add b) (self b) h;
  Some (attached, delete (self b) h1).

(** How control leaves a block. *)
Inductive exit_path := Fallthrough | EarlyReturn | Propagate.

(** A block that declares one [XmlSubNode] with automatic storage and then
    runs [body], which is given the builder's address.  However control
    leaves the block, the object's destructor runs. *)
Definition scope (ctor : addr -> store -> XmlSubNode * store)
  (body : addr -> store -> option (exit_path * store)) (h : store)
  : option (exit_path * addr * store) :=
  let this := fresh (dom h) in
  let '(b, h1) := ctor this h in
  '(e, h2) ← body this h1;
  '(attached, h3) ← XmlSubNode_dtor b h2;
  Some (e, attached, h3).

(** ** Trees

    The value a node and its descendants stand for, once the pointers are
    followed: what [to_string] and the copy constructor see of a node. *)
#[warnings="-register-all"]
Inductive tree := Tree {
  t_name : string;
  t_attributes : gmap string string;
  t_children : list tree;
  t_inner : string;
  t_tail : string
}.

Fixpoint height (t : tree) : nat :=
  S (fold_right (fun c m => Nat.max (height c) m) 0 (t_children t)).

(** The object at [a] and the objects its child pointers lead to hold
    [t]. *)
Fixpoint repr (h : store) (t : tree) (a : addr) : Prop :=
  exists n, h !! a = Some n /\
    name n = t_name t /\ attributes n = t_attributes t /\
    inner n = t_inner t /\ tail n = t_tail t /\
    (fix all2 (ts : list tree) (cs : list addr) : Prop :=
       match ts, cs with
       | [], [] => True
       | t' :: ts', c :: cs' => repr h t' c /\ all2 ts' cs'
       | _, _ => False
       end) (t_children t) (children n).

#[global] Arguments repr : simpl never.

(** The text of one attribute and of a sequence of attributes, as the
    specification lays the algorithm out. *)
Definition attribute_text `{Encoding} (it : string * string) : string :=
  " " +:+ it.1 +:+ "='" +:+ sanitize it.2 default_encoding +:+ "'".

Definition attributes_text `{Encoding} (l : list (string * string))
  : string :=
  fold_right (fun it acc => attribute_text it +:+ acc) EmptyString l.

(** The text of a tree, as the specification lays the algorithm out. *)
Fixpoint render `{Encoding} (t : tree) : string :=
  "<" +:+ t_name t
  +:+ attributes_text (StdMap.iter (t_attributes t))
  +:+ (if match t_children t with [] => Str.empty (t_inner t) | _ => false end
       then "/>"
       else ">" +:+ sanitize (t_inner t) default_encoding
            +:+ fold_right (fun c acc => render c +:+ acc) EmptyString
                  (t_children t)
            +:+ "</" +:+ t_name t +:+ ">")
  +:+ sanitize (t_tail t) default_encoding.

(** ** Attachment *)

(** [child] is the last element of the child list of the node at [this],
    and its parent pointer is [this]. *)
Definition attached_last (h : store) (this child : addr) : Prop :=
  exists p c,
    h !! this = Some p /\ h !! child = Some c /\
    parent c = Some this /\ last (children p) = Some child.

(** [c'] holds what [c] holds, the parent pointer apart. *)
Definition same_content (c c' : XmlNode) : Prop :=
  name c' = name c /\ attributes c' = attributes c /\
  children c' = children c /\ inner c' = inner c /\ tail c' = tail c.

(** What the copy of a tree is, for the induction on the tree: the copy
    constructor, run at an address that is free, returns; the objects it
    creates, [hc], are apart from the objects there were, which it leaves
    as they were; they hold the tree copied; the new root has no parent. *)
Definition copy_ok (fuel : nat) (t : tree) : Prop :=
  forall h this node,
    repr h t node -> h !! this = None ->
    exists hc n',
      XmlNode_copy fuel this node h = Some (hc ∪ h) /\
      hc ##ₘ h /\ repr hc t this /\
      hc !! this = Some n' /\ parent n' = None.

(** ** A reference model of the encoding collaborators

    Used where a statement is evaluated on concrete text. *)

Module Utf8.

Definition code (c : ascii) : N := N_of_ascii c.

Definition continuation (c : ascii) : bool :=
  (128 <=? code c)%N && (code c <? 192)%N.

(** Modelled from the spec: [utils::is_valid_utf8] (declared in
    [utils/encoding.hpp], which is not among the sources): whether the
    bytes are well-formed UTF-8, that is a sequence of one-byte characters
    and of lead bytes followed by the continuation bytes they announce. *)
Fixpoint is_valid_utf8 (s : string) : bool :=
  match s with
  | EmptyString => true
  | String c0 r0 =>
      if (code c0 <? 128)%N then is_valid_utf8 r0
      else if (code c0 <? 192)%N then false
      else if (code c0 <? 224)%N then
        match r0 with
        | String c1 r1 => continuation c1 && is_valid_utf8 r1
        | _ => false
        end
      else if (code c0 <? 240)%N then
        match r0 with
        | String c1 (String c2 r2) =>
            continuation c1 && continuation c2 && is_valid_utf8 r2
        | _ => false
        end
      else if (code c0 <? 248)%N then
        match r0 with
        | String c1 (String c2 (String c3 r3)) =>
            continuation c1 && continuation c2 && continuation c3
            && is_valid_utf8 r3
        | _ => false
        end
      else false
  end.

(** The characters the XML 1.0 grammar allows: tab, newline, carriage
    return, and the code points from U+0020 on outside the surrogates,
    U+FFFE and U+FFFF. *)
Definition xml_char (cp : N) : bool :=
  ((cp =? 9) || (cp =? 10) || (cp =? 13)
   || ((32 <=? cp) && (cp <=? 55295))
   || ((57344 <=? cp) && (cp <=? 65533))
   || ((65536 <=? cp) && (cp <=? 1114111)))%N.

(** Modelled from the spec: [utils::remove_invalid_xml_chars] (declared in
    [utils/encoding.hpp], which is not among the sources): strips from
    well-formed UTF-8 text the characters forbidden by the XML 1.0
    character grammar. *)
Fixpoint remove_invalid_xml_chars (s : string) : string :=
  match s with
  | EmptyString => EmptyString
  | String c0 r0 =>
      if (code c0 <? 128)%N then
        if xml_char (code c0) then String c0 (remove_invalid_xml_chars r0)
        else remove_invalid_xml_chars r0
      else if (code c0 <? 224)%N then
        match r0 with
        | String c1 r1 =>
            let cp := (code c0 mod 32 * 64 + code c1 mod 64)%N in
            if xml_char cp
            then String c0 (String c1 (remove_invalid_xml_chars r1))
            else remove_invalid_xml_chars r1
        | _ => EmptyString
        end
      else if (code c0 <? 240)%N then
        match r0 with
        | String c1 (String c2 r2) =>
            let cp :=
              (code c0 mod 16 * 4096 + code c1 mod 64 * 64
               + code c2 mod 64)%N in
            if xml_char cp
            then String c0 (String c1 (String c2
                   (remove_invalid_xml_chars r2)))
            else remove_invalid_xml_chars r2
        | _ => EmptyString
        end
      else
        match r0 with
        | String c1 (String c2 (String c3 r3)) =>
            let cp :=
              (code c0 mod 8 * 262144 + code c1 mod 64 * 4096
               + code c2 mod 64 * 64 + code c3 mod 64)%N in
            if xml_char cp
            then String c0 (String c1 (String c2 (String c3
                   (remove_invalid_xml_chars r3))))
            else remove_invalid_xml_chars r3
        | _ => EmptyString
        end
  end.

(** Modelled from the spec: [utils::convert_to_utf8] (declared in
    [utils/encoding.hpp], which is not among the sources): converts the
    bytes from a legacy encoding into UTF-8.  Only the default, Western
    single-byte encoding is modelled, whatever the name given: a byte is
    the code point of its character. *)
Fixpoint convert_to_utf8 (data encoding : string) : string :=
  match data with
  | EmptyString => EmptyString
  | String c rest =>
      if (code c <? 128)%N then String c (convert_to_utf8 rest encoding)
      else
        String (ascii_of_N (192 + code c / 64))
          (String (ascii_of_N (128 + code c mod 64))
             (convert_to_utf8 rest encoding))
  end.

Definition encoding : Encoding :=
  Build_Encoding is_valid_utf8 remove_invalid_xml_chars convert_to_utf8.

End Utf8.

(** ** Lookup among the children *)

(** The test of [get_child] and [get_children] on one child: the name and
    the value [get_tag] gives for xmlns. *)
Definition matches (name_ xmlns : string) (child : XmlNode) : bool :=
  String.eqb (name child) name_ && String.eqb (get_tag "xmlns" child) xmlns.

(** The loop of [get_child], which returns at the first match; [Some None]
    is [nullptr], [None] a child pointer that leads nowhere. *)
Fixpoint get_child_loop (name_ xmlns : string) (cs : list addr) (h : store)
  : option (option addr) :=
  match cs with
  | [] => Some None
  | child :: cs' =>
      c ← h !! child;
      if matches name_ xmlns c then Some (Some child)
      else get_child_loop name_ xmlns cs' h
  end.

Definition get_child (name_ xmlns : string) (this : addr) (h : store)
  : option (option addr) :=
  n ← h !! this; get_child_loop name_ xmlns (children n) h.

Definition get_children (name_ xmlns : string) (this : addr) (h : store)
  : option (list addr) :=
  n ← h !! this;
  for_each
    (fun child res =>
       c ← h !! child;
       Some (if matches name_ xmlns c then res ++ [child] else res))
    (children n) [].

(** Whether the child pointer [child] leads to a node that passes the
    test. *)
Definition child_matches (name_ xmlns : string) (h : store) (child : addr)
  : bool :=
  match h !! child with
  | Some c => matches name_ xmlns c
  | None => false
  end.

(** The number of occurrences of a byte in a string. *)
Fixpoint count_char (c : ascii) (s : string) : nat :=
  match s with
  | EmptyString => 0
  | String a rest => (if Ascii.eqb a c then 1 else 0) + count_char c rest
  end.

(** The texts of a sequence of trees, one after the other. *)
Definition children_text `{Encoding} (ts : list tree) : string :=
  fold_right (fun c acc => render c +:+ acc) EmptyString ts.

(** ** Destruction *)

(** [delete] of a node held by a [std::unique_ptr]: the defaulted
    destructor destroys the [children] vector, hence each child in turn,
    and the storage of the node ends.  [fuel] bounds the depth. *)
Fixpoint destroy (fuel : nat) (a : addr) (h : store) : option store :=
  match fuel with
  | 0 => None
  | S fuel' =>
      n ← h !! a;
      h' ← for_each (destroy fuel') (children n) h;
      Some (delete a h')
  end.

Definition clear (n : XmlNode) : XmlNode :=
  mkXmlNode (name n) (parent n) (attributes n) [] (inner n) (tail n).

(** [delete_all_children()]: [children.clear()] destroys every element
    and leaves the vector empty. *)
Definition delete_all_children (fuel : nat) (this : addr) (h : store)
  : option store :=
  n ← h !! this;
  h' ← for_each (destroy fuel) (children n) h;
  call clear this h'.

(** ** Ownership

    [owns hc t a]: the objects of [hc] are the node at [a] and its
    descendants, each once, and they hold [t]; this is what the owning
    pointers of [children] stand for. *)
Inductive owns : store -> tree -> addr -> Prop :=
  | owns_node a n t hk :
      name n = t_name t -> attributes n = t_attributes t ->
      inner n = t_inner t -> tail n = t_tail t ->
      hk !! a = None ->
      owns_list hk (t_children t) (children n) ->
      owns (<[a := n]> hk) t a
with owns_list : store -> list tree -> list addr -> Prop :=
  | owns_nil : owns_list ∅ [] []
  | owns_cons h1 h2 t c ts cs :
      owns h1 t c -> owns_list h2 ts cs -> h1 ##ₘ h2 ->
      owns_list (h1 ∪ h2) (t :: ts) (c :: cs).

Scheme owns_min := Minimality for owns Sort Prop
  with owns_list_min := Minimality for owns_list Sort Prop.

Combined Scheme owns_mutind from owns_min, owns_list_min.

(** Every child pointer in [h] leads to an object of [h] whose parent
    pointer leads back. *)
Definition well_parented (h : store) : Prop :=
  forall a n c,
    h !! a = Some n -> c ∈ children n ->
    exists m, h !! c = Some m /\ parent m = Some a.

(** What the copy constructor does with a tree, ownership included: as
    [copy_ok], and the objects created are the copy and nothing else, with
    their parent pointers in step with their child lists. *)
Definition copy_owned (fuel : nat) (t : tree) : Prop :=
  forall h this node,
    repr h t node -> h !! this = None ->
    exists hc n',
      XmlNode_copy fuel this node h = Some (hc ∪ h) /\
      hc ##ₘ h /\ owns hc t this /\
      well_parented hc /\
      hc !! this = Some n' /\ parent n' = None.

(** The text one byte becomes in [xml_escape]. *)
Definition escaped (c : ascii) : string :=
  match entity_of c with Some e => e | None => String c EmptyString end.

(** ** Sample nodes and stores *)

Module Sample.

Definition root : addr := 1%positive.
Definition kid : addr := 2%positive.
Definition spare : addr := 3%positive.

Definition message : XmlNode :=
  set_attribute "to" "u@h" (XmlNode_ctor_name "message").

Definition body : XmlNode := set_inner "hi<3" (XmlNode_ctor_name "body").

(** Two nodes, none attached. *)
Definition detached : store := {[root := message; kid := body]}.

(** The same nodes once [body] is a child of [message]. *)
Definition attached : store :=
  {[root := push_back kid message; kid := set_parent (Some root) body]}.

Definition body_tree : tree := Tree "body" ∅ [] "hi<3" EmptyString.

Definition message_tree : tree :=
  Tree "message" {["to" := "u@h"]} [body_tree] EmptyString EmptyString.

(** A node with no child and no inner text, and some text after it. *)
Definition leaf_with_tail : XmlNode := set_tail "x" (XmlNode_ctor_name "a").

(** A node with no child, no inner text and no tail. *)
Definition leaf : XmlNode :=
  set_attribute "id" "1" (XmlNode_ctor_name "presence").

(** Two attributes, bound larger key first. *)
Definition b_then_a : XmlNode :=
  set_attribute "a" "1" (set_attribute "b" "2" (XmlNode_ctor_name "n")).

Definition b_then_a_tree : tree :=
  Tree "n" {["a" := "1"; "b" := "2"]} [] EmptyString EmptyString.

(** A block that sets the inner text of its builder and then fails. *)
Definition failing_body (this : addr) (h : store)
  : option (exit_path * store) :=
  h' ← call (set_inner "hi") this h; Some (Propagate, h').

End Sample.

(** * Properties *)

(** ** Strings *)

Section string_facts.

Implicit Types s t u : string.

Lemma str_app_cons a s t : String a s +:+ t = String a (s +:+ t).
Proof. reflexivity. Qed.

Lemma str_app_nil_l s : EmptyString +:+ s = s.
Proof. reflexivity. Qed.

Lemma str_app_nil_r s : s +:+ EmptyString = s.
Proof. induction s as [|a s IH]; [done|]. by rewrite str_app_cons, IH. Qed.

Lemma str_app_assoc s t u : (s +:+ t) +:+ u = s +:+ (t +:+ u).
Proof. induction s as [|a s IH]; [done|]. by rewrite !str_app_cons, IH. Qed.

Lemma put_app s t : s << t = s +:+ t.
Proof. reflexivity. Qed.

Lemma mem_app c s t : Str.mem c (s +:+ t) = Str.mem c s || Str.mem c t.
Proof.
  induction s as [|a s IH]; [done|].
  rewrite str_app_cons. simpl. rewrite IH. by destruct (Ascii.eqb a c).
Qed.

Lemma empty_true s : Str.empty s = true -> s = EmptyString.
Proof. by destruct s. Qed.

Lemma rfind_None c s : Str.rfind c s = None <-> Str.mem c s = false.
Proof.
  induction s as [|a s IH]; [done|]. simpl.
  destruct (Str.rfind c s) as [n|].
  - split; [done|]. intros [_ Hs]%orb_false_elim.
    by apply IH in Hs.
  - destruct IH as [IH _]. rewrite (IH eq_refl), orb_false_r.
    by destruct (Ascii.eqb a c).
Qed.

Lemma rfind_app_last c s t :
  Str.mem c t = false ->
  Str.rfind c (s +:+ String c t) = Some (String.length s).
Proof.
  intros Ht. induction s as [|a s IH].
  - rewrite str_app_nil_l. simpl.
    apply rfind_None in Ht. by rewrite Ht, Ascii.eqb_refl.
  - rewrite str_app_cons. simpl. by rewrite IH.
Qed.

Lemma rfind_split c s n :
  Str.rfind c s = Some n ->
  s = Str.substr_to n s +:+ String c (Str.substr_from (n + 1) s)
  /\ Str.mem c (Str.substr_from (n + 1) s) = false
  /\ n < String.length s.
Proof.
  revert n. induction s as [|a s IH]; intros n; [done|]. simpl.
  destruct (Str.rfind c s) as [m|] eqn:Hm.
  - intros [= <-]. destruct (IH m eq_refl) as (Hs & Hmem & Hlt).
    simpl. rewrite str_app_cons. split; [by f_equal|]. split; [done|lia].
  - destruct (Ascii.eqb_spec a c) as [->|]; [|done].
    intros [= <-]. simpl. split; [done|].
    split; [by apply rfind_None|lia].
Qed.

Lemma substr_from_app s a t :
  Str.substr_from (String.length s + 1) (s +:+ String a t) = t.
Proof. induction s as [|b s IH]; [done|]. by rewrite str_app_cons. Qed.

Lemma prefix_spec s t :
  String.prefix s t = true <-> exists u, t = s +:+ u.
Proof.
  revert t. induction s as [|a s IH]; intros t.
  - split; [|by destruct t]. intros _. by exists t.
  - destruct t as [|b t]; simpl.
    + split; [done|]. by intros [u Hu].
    + destruct (ascii_dec a b) as [->|Hab].
      * rewrite IH. split; intros [u Hu]; exists u.
        -- by rewrite str_app_cons, Hu.
        -- rewrite str_app_cons in Hu. by simplify_eq.
      * split; [done|]. intros [u Hu]. rewrite str_app_cons in Hu.
        by simplify_eq.
Qed.

Lemma contains_nil s : Str.contains s EmptyString = String.prefix s EmptyString || false.
Proof. reflexivity. Qed.

Lemma contains_cons s b t :
  Str.contains s (String b t)
  = String.prefix s (String b t) || Str.contains s t.
Proof. reflexivity. Qed.

Lemma contains_spec s t :
  Str.contains s t = true <-> exists u v, t = u +:+ (s +:+ v).
Proof.
  induction t as [|b t IH].
  - rewrite contains_nil, orb_false_r, prefix_spec. split.
    + intros [v Hv]. by exists EmptyString, v.
    + intros (u & v & Huv). destruct u; [by exists v|done].
  - rewrite contains_cons, orb_true_iff, IH, prefix_spec. split.
    + intros [[v Hv]|(u & v & Huv)].
      * by exists EmptyString, v.
      * exists (String b u), v. by rewrite str_app_cons, Huv.
    + intros (u & v & Huv). destruct u as [|a u].
      * left. by exists v.
      * right. rewrite str_app_cons in Huv. simplify_eq. by exists u, v.
Qed.

Lemma ends_with_nil s : Str.ends_with s EmptyString = String.eqb EmptyString s || false.
Proof. reflexivity. Qed.

Lemma ends_with_cons s b t :
  Str.ends_with s (String b t)
  = String.eqb (String b t) s || Str.ends_with s t.
Proof. reflexivity. Qed.

Lemma ends_with_spec s t :
  Str.ends_with s t = true <-> exists u, t = u +:+ s.
Proof.
  induction t as [|b t IH].
  - rewrite ends_with_nil, orb_false_r, String.eqb_eq. split.
    + intros <-. by exists EmptyString.
    + intros [u Hu]. destruct u; [done|by rewrite str_app_cons in Hu].
  - rewrite ends_with_cons, orb_true_iff, IH, String.eqb_eq. split.
    + intros [<-|[u Hu]]; [by exists EmptyString|].
      exists (String b u). by rewrite str_app_cons, Hu.
    + intros [u Hu]. destruct u as [|a u]; [by left|].
      right. rewrite str_app_cons in Hu. simplify_eq. by exists u.
Qed.

Lemma prefix_cons a s b t :
  String.prefix (String a s) (String b t)
  = if ascii_dec a b then String.prefix s t else false.
Proof. reflexivity. Qed.

Lemma mem_cons c a s : Str.mem c (String a s) = Ascii.eqb a c || Str.mem c s.
Proof. reflexivity. Qed.

(** A text with no ['<'] holds no closing tag. *)
Lemma contains_lt_free s t :
  Str.mem "<"%char t = false -> Str.contains (String "<"%char s) t = false.
Proof.
  induction t as [|b t IH]; [done|].
  rewrite contains_cons, prefix_cons, mem_cons.
  intros [Hb Ht]%orb_false_elim. rewrite (IH Ht), orb_false_r.
  destruct (ascii_dec "<"%char b) as [<-|]; [|done].
  by rewrite Ascii.eqb_refl in Hb.
Qed.

Lemma contains_weaken s s' t :
  Str.contains (s +:+ s') t = true -> Str.contains s t = true.
Proof.
  rewrite !contains_spec. intros (u & v & ->).
  exists u, (s' +:+ v). by rewrite str_app_assoc.
Qed.

Lemma substr_to_app s t : Str.substr_to (String.length s) (s +:+ t) = s.
Proof.
  induction s as [|b s IH]; [by destruct t|].
  rewrite str_app_cons. simpl. by rewrite IH.
Qed.

End string_facts.

(** ** Escaping *)

Section escape_facts.

Implicit Types s t data res : string.

Lemma xml_escape_step_entity res c :
  xml_escape_step res c
  = res +:+ match entity_of c with Some e => e | None => String c EmptyString end.
Proof. by destruct c as [[] [] [] [] [] [] [] []]. Qed.

Lemma xml_escape_loop_spec data res :
  xml_escape_loop data res = res +:+ xml_escape_spec data.
Proof.
  revert res. induction data as [|c data IH]; intros res; simpl.
  - by rewrite str_app_nil_r.
  - rewrite IH, xml_escape_step_entity, str_app_assoc.
    by destruct (entity_of c).
Qed.

Lemma xml_escape_refines data : xml_escape data = xml_escape_spec data.
Proof. unfold xml_escape. by rewrite xml_escape_loop_spec. Qed.

Lemma xml_escape_app s t : xml_escape (s +:+ t) = xml_escape s +:+ xml_escape t.
Proof.
  rewrite !xml_escape_refines.
  induction s as [|c s IH]; [done|].
  rewrite str_app_cons. simpl. rewrite IH.
  destruct (entity_of c); [by rewrite str_app_assoc|done].
Qed.

Lemma is_reserved_five c :
  is_reserved c = true <->
  c = "&"%char \/ c = "<"%char \/ c = ">"%char \/ c = "034"%char
  \/ c = "'"%char.
Proof.
  split.
  - destruct c as [[] [] [] [] [] [] [] []]; cbv; intros; try discriminate;
      tauto.
  - by intros [->|[->|[->|[->| ->]]]].
Qed.

Lemma xml_escape_unreserved_char c :
  is_reserved c = false -> xml_escape (String c EmptyString) = String c EmptyString.
Proof.
  rewrite xml_escape_refines. unfold is_reserved. simpl.
  by destruct (entity_of c).
Qed.

Lemma xml_escape_unreserved s : unreserved s = true -> xml_escape s = s.
Proof.
  rewrite xml_escape_refines.
  induction s as [|c s IH]; [done|]. simpl.
  intros [Hc Hs]%andb_prop. unfold is_reserved in Hc.
  destruct (entity_of c); [done|]. by rewrite IH.
Qed.

Lemma xml_escape_reserved_inj c1 c2 :
  is_reserved c1 = true -> is_reserved c2 = true ->
  xml_escape (String c1 EmptyString) = xml_escape (String c2 EmptyString) ->
  c1 = c2.
Proof.
  intros H1%is_reserved_five H2%is_reserved_five.
  destruct H1 as [->|[->|[->|[->| ->]]]];
    destruct H2 as [->|[->|[->|[->| ->]]]]; by vm_compute.
Qed.

(** The output of [xml_escape] holds no ['<']. *)
Lemma xml_escape_no_lt data : Str.mem "<"%char (xml_escape data) = false.
Proof.
  rewrite xml_escape_refines.
  induction data as [|c data IH]; [done|]. simpl.
  destruct (entity_of c) as [e|] eqn:He.
  - rewrite mem_app, IH, orb_false_r.
    destruct c as [[] [] [] [] [] [] [] []]; vm_compute in He;
      by simplify_eq.
  - simpl. rewrite IH, orb_false_r.
    destruct c as [[] [] [] [] [] [] [] []]; by vm_compute in He |- *.
Qed.

(** C7. [xml_escape] replaces each of the five characters ampersand,
    less-than, greater-than, double quote and apostrophe by its entity and
    keeps every other byte: it agrees with the table-driven definition,
    it maps a text byte by byte, the reserved characters are exactly those
    five, each with the entity stated, and any other byte is kept.  It is
    the identity, hence idempotent, on a string with no reserved character,
    and distinct reserved characters have distinct images. *)
Theorem xml_escape_five_entities :
  (forall data, xml_escape data = xml_escape_spec data) /\
  (forall s t, xml_escape (s +:+ t) = xml_escape s +:+ xml_escape t) /\
  (xml_escape "&" = "&amp;" /\ xml_escape "<" = "&lt;" /\
   xml_escape ">" = "&gt;" /\
   xml_escape (String "034"%char EmptyString) = "&quot;" /\
   xml_escape "'" = "&apos;") /\
  (forall c, is_reserved c = true <->
     c = "&"%char \/ c = "<"%char \/ c = ">"%char \/ c = "034"%char
     \/ c = "'"%char) /\
  (forall c, is_reserved c = false ->
     xml_escape (String c EmptyString) = String c EmptyString) /\
  (forall s, unreserved s = true ->
     xml_escape s = s /\ xml_escape (xml_escape s) = xml_escape s) /\
  (forall c1 c2, is_reserved c1 = true -> is_reserved c2 = true ->
     xml_escape (String c1 EmptyString) = xml_escape (String c2 EmptyString) ->
     c1 = c2).
Proof.
  split; [exact xml_escape_refines|].
  split; [exact xml_escape_app|].
  split; [by vm_compute|].
  split; [exact is_reserved_five|].
  split; [exact xml_escape_unreserved_char|].
  split; [|exact xml_escape_reserved_inj].
  intros s Hs. by rewrite !(xml_escape_unreserved s Hs).
Qed.

Lemma xml_escape_five_entities_witness :
  unreserved "hello, world" = true /\
  xml_escape "hello, world" = "hello, world" /\
  xml_escape (xml_escape "hello, world") = xml_escape "hello, world".
Proof.
  split; [reflexivity|].
  destruct xml_escape_five_entities as (_ & _ & _ & _ & _ & Hid & _).
  apply (Hid "hello, world"). reflexivity.
Defined.

(** The attribute value of the specification's example. *)
Example xml_escape_all_five :
  xml_escape ("a&b<c>d" +:+ String "034"%char "e'f")
  = "a&amp;b&lt;c&gt;d&quot;e&apos;f".
Proof. reflexivity. Qed.

(** Escaping an escaped text escapes the ampersands again. *)
Example xml_escape_twice : xml_escape (xml_escape "<") = "&amp;lt;".
Proof. reflexivity. Qed.

End escape_facts.

(** ** Construction, text and attributes *)

Section node_facts.

Implicit Types (n : XmlNode) (k v a b data : string).

(** C2. The constructor taking one name string splits it at the last
    separator: the text after it becomes the name, which holds no separator,
    and the text before it becomes the value of the xmlns attribute, the
    only attribute.  A name with no separator is stored as it is and the
    node has no attribute.  The name stored never holds a separator. *)
Theorem XmlNode_ctor_splits_at_last_separator name_ parent_ :
  Str.mem sep (name (XmlNode_ctor name_ parent_)) = false /\
  (forall prefix suffix,
     name_ = prefix +:+ String sep suffix -> Str.mem sep suffix = false ->
     name (XmlNode_ctor name_ parent_) = suffix /\
     attributes (XmlNode_ctor name_ parent_) = {["xmlns" := prefix]}) /\
  (Str.mem sep name_ = true ->
     exists prefix suffix,
       name_ = prefix +:+ String sep suffix /\ Str.mem sep suffix = false) /\
  (Str.mem sep name_ = false ->
     name (XmlNode_ctor name_ parent_) = name_ /\
     attributes (XmlNode_ctor name_ parent_) = ∅) /\
  parent (XmlNode_ctor name_ parent_) = parent_ /\
  children (XmlNode_ctor name_ parent_) = [] /\
  inner (XmlNode_ctor name_ parent_) = EmptyString /\
  tail (XmlNode_ctor name_ parent_) = EmptyString.
Proof.
  split; [|split; [|split; [|split]]].
  - unfold XmlNode_ctor.
    destruct (Str.rfind sep name_) as [n|] eqn:Hn; simpl.
    + by apply rfind_split in Hn as (_ & ? & _).
    + by apply rfind_None.
  - intros prefix suffix -> Hsuf. unfold XmlNode_ctor.
    rewrite (rfind_app_last _ _ _ Hsuf). simpl.
    rewrite substr_from_app, substr_to_app. split; [done|].
    unfold StdMap.assign. by rewrite insert_empty.
  - intros Hmem. destruct (Str.rfind sep name_) as [n|] eqn:Hn.
    + apply rfind_split in Hn as (? & ? & _). eauto.
    + apply rfind_None in Hn. congruence.
  - intros Hmem%rfind_None. unfold XmlNode_ctor. by rewrite Hmem.
  - unfold XmlNode_ctor. by destruct (Str.rfind sep name_).
Qed.

Lemma XmlNode_ctor_splits_at_last_separator_witness :
  Str.mem sep "item" = false /\
  name (XmlNode_ctor ("urn:example" +:+ String sep "item") None) = "item" /\
  attributes (XmlNode_ctor ("urn:example" +:+ String sep "item") None)
  = {["xmlns" := "urn:example"]}.
Proof.
  split; [reflexivity|].
  destruct (XmlNode_ctor_splits_at_last_separator
              ("urn:example" +:+ String sep "item") None)
    as (_ & Hsplit & _).
  apply (Hsplit "urn:example" "item"); reflexivity.
Defined.

(** The example of the specification: a namespace, the separator, a local
    name. *)
Example XmlNode_ctor_urn_example :
  let n := XmlNode_ctor_name ("urn:example" +:+ String sep "item") in
  name n = "item" /\ get_tag "xmlns" n = "urn:example"
  /\ attributes n = {["xmlns" := "urn:example"]}.
Proof. by vm_compute. Qed.

(** A name with several separators is split at the last one only. *)
Example XmlNode_ctor_two_separators :
  let n := XmlNode_ctor_name ("a" +:+ String sep ("b" +:+ String sep "c")) in
  name n = "c" /\ get_tag "xmlns" n = "a" +:+ String sep "b".
Proof. by vm_compute. Qed.

(** C8. Appending [a] and then [b] to the inner text of a node whose inner
    text is empty stores what setting it to [a] followed by [b] stores, and
    likewise for the tail text: appending concatenates the bytes given, as
    they are, after the text stored, and setting replaces it. *)
Theorem append_append_is_set n a b :
  (inner n = EmptyString ->
     get_inner (add_to_inner b (add_to_inner a n))
       = get_inner (set_inner (a +:+ b) n) /\
     add_to_inner b (add_to_inner a n) = set_inner (a +:+ b) n) /\
  (tail n = EmptyString ->
     get_tail (add_to_tail b (add_to_tail a n))
       = get_tail (set_tail (a +:+ b) n) /\
     add_to_tail b (add_to_tail a n) = set_tail (a +:+ b) n) /\
  get_inner (add_to_inner b (add_to_inner a n)) = inner n +:+ (a +:+ b) /\
  get_tail (add_to_tail b (add_to_tail a n)) = tail n +:+ (a +:+ b) /\
  get_inner (set_inner a n) = a /\
  get_tail (set_tail a n) = a.
Proof.
  unfold add_to_inner, add_to_tail, set_inner, set_tail, get_inner, get_tail.
  simpl. rewrite !str_app_assoc.
  split; [by intros ->|]. split; [by intros ->|]. done.
Qed.

Lemma append_append_is_set_witness :
  inner (XmlNode_ctor_name "x") = EmptyString /\
  tail (XmlNode_ctor_name "x") = EmptyString /\
  get_inner (add_to_inner "cd" (add_to_inner "ab" (XmlNode_ctor_name "x")))
  = get_inner (set_inner ("ab" +:+ "cd") (XmlNode_ctor_name "x")) /\
  get_tail (add_to_tail "cd" (add_to_tail "ab" (XmlNode_ctor_name "x")))
  = get_tail (set_tail ("ab" +:+ "cd") (XmlNode_ctor_name "x")).
Proof.
  split; [reflexivity|]. split; [reflexivity|].
  destruct (append_append_is_set (XmlNode_ctor_name "x") "ab" "cd")
    as (Hi & Ht & _).
  destruct Hi as [Hi _]; [reflexivity|].
  destruct Ht as [Ht _]; [reflexivity|].
  by split.
Defined.

(** Whatever the text stored: appending extends it, setting replaces it. *)
Lemma add_to_inner_spec n a b :
  get_inner (add_to_inner a n) = inner n +:+ a /\
  get_inner (add_to_inner b (add_to_inner a n)) = inner n +:+ (a +:+ b) /\
  get_inner (set_inner a n) = a.
Proof. unfold get_inner. simpl. by rewrite str_app_assoc. Qed.

Lemma add_to_tail_spec n a b :
  get_tail (add_to_tail a n) = tail n +:+ a /\
  get_tail (add_to_tail b (add_to_tail a n)) = tail n +:+ (a +:+ b) /\
  get_tail (set_tail a n) = a.
Proof. unfold get_tail. simpl. by rewrite str_app_assoc. Qed.

Example add_to_inner_ab_cd :
  get_inner (add_to_inner "cd" (add_to_inner "ab" (XmlNode_ctor_name "n")))
  = get_inner (set_inner "abcd" (XmlNode_ctor_name "n")).
Proof. reflexivity. Qed.

(** C9. [del_tag] returns true exactly when the key was bound.  On a key
    that is not bound it returns false and the node, its attributes
    included, is as before.  On a bound key it returns true, the key is
    bound no more, every other key keeps its binding or its absence, and
    the other members are as before. *)
Theorem del_tag_removes_exactly_the_key k n :
  ((del_tag k n).1 = true <-> is_Some (attributes n !! k)) /\
  (attributes n !! k = None ->
     (del_tag k n).1 = false /\ (del_tag k n).2 = n) /\
  (is_Some (attributes n !! k) ->
     (del_tag k n).1 = true /\
     attributes (del_tag k n).2 !! k = None /\
     (forall k', k' <> k ->
        attributes (del_tag k n).2 !! k' = attributes n !! k')) /\
  name (del_tag k n).2 = name n /\ parent (del_tag k n).2 = parent n /\
  children (del_tag k n).2 = children n /\
  inner (del_tag k n).2 = inner n /\ tail (del_tag k n).2 = tail n.
Proof.
  unfold del_tag, StdMap.erase.
  destruct (attributes n !! k) as [v|] eqn:Hk; simpl.
  - split; [by split; eauto|]. split; [done|]. split; [|done].
    intros _. split; [done|]. split; [apply lookup_delete_eq|].
    intros k' Hk'. by apply lookup_delete_ne.
  - split; [split; [done|by intros [? ?]]|].
    split; [by destruct n|]. split; [by intros [? ?]|done].
Qed.

Lemma del_tag_removes_exactly_the_key_witness :
  is_Some (attributes Sample.message !! "to") /\
  (del_tag "to" Sample.message).1 = true /\
  attributes (del_tag "to" Sample.message).2 !! "to" = None /\
  attributes Sample.message !! "id" = None /\
  (del_tag "id" Sample.message).1 = false /\
  (del_tag "id" Sample.message).2 = Sample.message.
Proof.
  assert (Hto : is_Some (attributes Sample.message !! "to")).
  { exists "u@h". reflexivity. }
  split; [exact Hto|].
  destruct (del_tag_removes_exactly_the_key "to" Sample.message)
    as (_ & _ & Hpresent & _).
  destruct (Hpresent Hto) as (Ht & Hgone & _).
  split; [exact Ht|]. split; [exact Hgone|].
  split; [reflexivity|].
  destruct (del_tag_removes_exactly_the_key "id" Sample.message)
    as (_ & Habsent & _).
  apply Habsent. reflexivity.
Defined.

End node_facts.

(** ** The attribute map *)

Section map_facts.

Implicit Types (m : gmap string string) (k v : string).

#[local] Instance key_le_trans : Transitive StdMap.key_le.
Proof. intros p q r. unfold StdMap.key_le. apply transitivity. Qed.

#[local] Instance key_le_total : Total StdMap.key_le.
Proof. intros p q. unfold StdMap.key_le. apply total, _. Qed.

Lemma le_ne_ltb k1 k2 : String.le k1 k2 -> k1 <> k2 -> String.ltb k1 k2 = true.
Proof.
  unfold String.le, String.leb, String.ltb. intros Hle Hne.
  destruct (String.compare k1 k2) eqn:Hc; [|done..].
  by apply String.compare_eq_iff in Hc.
Qed.

Lemma ltb_asym k1 k2 :
  String.ltb k1 k2 = true -> String.ltb k2 k1 = true -> False.
Proof.
  unfold String.ltb. rewrite (String.compare_antisym k1 k2).
  by destruct (String.compare k2 k1).
Qed.

Lemma ltb_irrefl k : String.ltb k k = false.
Proof.
  destruct (String.ltb k k) eqn:Hk; [|done].
  by destruct (ltb_asym _ _ Hk Hk).
Qed.

Lemma iter_Permutation m : StdMap.iter m ≡ₚ map_to_list m.
Proof. apply merge_sort_Permutation. Qed.

Lemma elem_of_iter m k v : (k, v) ∈ StdMap.iter m <-> m !! k = Some v.
Proof. by rewrite iter_Permutation, elem_of_map_to_list. Qed.

Lemma iter_NoDup_keys m : NoDup (StdMap.iter m).*1.
Proof. rewrite iter_Permutation. apply NoDup_fst_map_to_list. Qed.

Lemma iter_sorted_le m : StronglySorted StdMap.key_le (StdMap.iter m).
Proof. apply (StronglySorted_merge_sort _). Qed.

Lemma sorted_le_NoDup_lt (l : list (string * string)) :
  StronglySorted StdMap.key_le l -> NoDup l.*1 ->
  StronglySorted StdMap.key_lt l.
Proof.
  induction 1 as [|p l Hl IH Hp]; [constructor|].
  rewrite fmap_cons, NoDup_cons. intros [Hnotin Hnd].
  constructor; [by apply IH|].
  apply Forall_forall. intros q Hq.
  apply le_ne_ltb.
  - rewrite Forall_forall in Hp. by apply Hp.
  - intros Heq. apply Hnotin. rewrite Heq. by apply list_elem_of_fmap_2.
Qed.

(** The traversal visits the bindings of the map, each once, by strictly
    ascending key. *)
Lemma iter_sorted m : StronglySorted StdMap.key_lt (StdMap.iter m).
Proof.
  apply sorted_le_NoDup_lt; [apply iter_sorted_le|apply iter_NoDup_keys].
Qed.

Lemma sorted_lt_split (l : list (string * string)) p q :
  StronglySorted StdMap.key_lt l -> p ∈ l -> q ∈ l -> StdMap.key_lt p q ->
  exists l1 l2 l3, l = l1 ++ p :: l2 ++ q :: l3.
Proof.
  intros Hl Hp Hq Hpq.
  apply list_elem_of_split in Hp as (l1 & l2' & ->).
  apply StronglySorted_app in Hl as (Hcross & _ & _).
  rewrite elem_of_app, elem_of_cons in Hq.
  destruct Hq as [Hq|[->|Hq]].
  - destruct (ltb_asym _ _ Hpq). apply (Hcross q p); [done|set_solver].
  - unfold StdMap.key_lt in Hpq. by rewrite ltb_irrefl in Hpq.
  - apply list_elem_of_split in Hq as (l2 & l3 & ->). by exists l1, l2, l3.
Qed.

Lemma iter_split m k1 v1 k2 v2 :
  m !! k1 = Some v1 -> m !! k2 = Some v2 -> String.ltb k1 k2 = true ->
  exists l1 l2 l3, StdMap.iter m = l1 ++ (k1, v1) :: l2 ++ (k2, v2) :: l3.
Proof.
  intros H1 H2 Hlt.
  apply sorted_lt_split; [apply iter_sorted|by apply elem_of_iter..|done].
Qed.

Lemma ltb_le k1 k2 : String.ltb k1 k2 = true -> String.le k1 k2.
Proof.
  unfold String.le, String.leb, String.ltb.
  by destruct (String.compare k1 k2).
Qed.

Lemma ltb_ne k1 k2 : String.ltb k1 k2 = true -> k1 <> k2.
Proof. intros Hlt ->. by rewrite ltb_irrefl in Hlt. Qed.

Lemma ltb_trans k1 k2 k3 :
  String.ltb k1 k2 = true -> String.ltb k2 k3 = true ->
  String.ltb k1 k3 = true.
Proof.
  intros H12 H23. apply le_ne_ltb.
  - etrans; by apply ltb_le.
  - intros ->. by destruct (ltb_asym _ _ H12 H23).
Qed.

Lemma ltb_total k1 k2 :
  String.ltb k1 k2 = false -> String.eqb k1 k2 = false ->
  String.ltb k2 k1 = true.
Proof.
  intros Hlt Hne%String.eqb_neq. apply le_ne_ltb; [|done].
  destruct (total String.le k1 k2) as [Hle|Hle]; [|done].
  by rewrite (le_ne_ltb _ _ Hle Hne) in Hlt.
Qed.

(** Two sequences in strictly ascending key order with the same elements
    are the same sequence. *)
Lemma sorted_lt_ext (l1 l2 : list (string * string)) :
  StronglySorted StdMap.key_lt l1 -> StronglySorted StdMap.key_lt l2 ->
  (forall p, p ∈ l1 <-> p ∈ l2) -> l1 = l2.
Proof.
  intros H1 H2 Hext.
  assert (Hnd : forall l, StronglySorted StdMap.key_lt l -> NoDup l).
  { induction 1 as [|p l Hl IH Hp]; constructor; [|done].
    intros Hin. rewrite Forall_forall in Hp. specialize (Hp _ Hin).
    unfold StdMap.key_lt in Hp. by rewrite ltb_irrefl in Hp. }
  apply (StronglySorted_unique_strong StdMap.key_lt); [|done..|].
  - intros p q _ _ Hpq Hqp. by destruct (ltb_asym _ _ Hpq Hqp).
  - apply NoDup_Permutation; auto.
Qed.

Lemma assign_sorted_elem k v l p :
  StronglySorted StdMap.key_lt l ->
  p ∈ StdMap.assign_sorted k v l <-> p = (k, v) \/ (p ∈ l /\ p.1 <> k).
Proof.
  induction 1 as [|[k' v'] l Hl IH Hk']; simpl.
  - rewrite list_elem_of_singleton. split; [by left|].
    intros [->|[Hp _]]; [done|]. by apply elem_of_nil in Hp.
  - rewrite Forall_forall in Hk'.
    destruct (String.ltb k k') eqn:Hlt; [|destruct (String.eqb_spec k k') as [<-|Hne]].
    + rewrite !elem_of_cons. split; [|intros [->|[Hp _]]; [by left|by right]].
      intros [->|[->|Hp]]; [by left|right..].
      * split; [by left|]. simpl. intros ->. by rewrite ltb_irrefl in Hlt.
      * split; [by right|]. intros <-.
        specialize (Hk' _ Hp). by destruct (ltb_asym _ _ Hlt Hk').
    + rewrite !elem_of_cons. split.
      * intros [->|Hp]; [by left|right]. split; [by right|].
        intros <-. specialize (Hk' _ Hp). unfold StdMap.key_lt in Hk'.
        by rewrite ltb_irrefl in Hk'.
      * intros [->|[[->|Hp] Hpk]]; [by left|done|by right].
    + rewrite !elem_of_cons, IH. split.
      * intros [->|[->|[Hp Hpk]]]; [right|by left|right].
        -- split; [by left|]. simpl. congruence.
        -- split; [by right|done].
      * intros [->|[[->|Hp] Hpk]]; [by right; left|by left|].
        right. right. done.
Qed.

Lemma assign_sorted_sorted k v l :
  StronglySorted StdMap.key_lt l ->
  StronglySorted StdMap.key_lt (StdMap.assign_sorted k v l).
Proof.
  intros Hl. induction Hl as [|[k' v'] l Hl IH Hk']; simpl.
  - repeat constructor.
  - destruct (String.ltb k k') eqn:Hlt; [|destruct (String.eqb_spec k k') as [<-|Hne]].
    + constructor; [by constructor|]. constructor; [done|].
      eapply Forall_impl; [exact Hk'|]. intros q Hq.
      eapply ltb_trans; [exact Hlt|exact Hq].
    + by constructor.
    + constructor; [done|]. apply Forall_forall. intros q Hq.
      apply (assign_sorted_elem k v l q Hl) in Hq as [->|[Hq _]].
      * apply ltb_total; [done|]. by apply String.eqb_neq.
      * rewrite Forall_forall in Hk'. by apply Hk'.
Qed.

(** Binding a key in the map puts the binding at its place in the
    traversal. *)
Lemma iter_assign k v m :
  StdMap.iter (StdMap.assign k v m) = StdMap.assign_sorted k v (StdMap.iter m).
Proof.
  apply sorted_lt_ext.
  - apply iter_sorted.
  - apply assign_sorted_sorted, iter_sorted.
  - intros [k' v']. rewrite assign_sorted_elem by apply iter_sorted.
    rewrite !elem_of_iter. unfold StdMap.assign. simpl.
    rewrite lookup_insert_Some. split.
    + intros [[-> ->]|[Hne Hl]]; [by left|right]. split; [done|congruence].
    + intros [[= -> ->]|[Hl Hne]]; [by left|right]. split; [congruence|done].
Qed.

Lemma iter_empty : StdMap.iter ∅ = [].
Proof. unfold StdMap.iter. by rewrite map_to_list_empty. Qed.

Lemma iter_singleton k v : StdMap.iter {[k := v]} = [(k, v)].
Proof. unfold StdMap.iter. by rewrite map_to_list_singleton. Qed.

Lemma set_attribute_comm k1 v1 k2 v2 (n : XmlNode) :
  k1 <> k2 ->
  set_attribute k1 v1 (set_attribute k2 v2 n)
  = set_attribute k2 v2 (set_attribute k1 v1 n).
Proof.
  intros Hne. unfold set_attribute, StdMap.assign. simpl.
  f_equal. by apply insert_insert_ne.
Qed.

End map_facts.

(** ** Trees in the store *)

Section tree_facts.

Implicit Types (h : store) (t : tree) (a : addr).

Lemma tree_ind_nested (P : tree -> Prop) :
  (forall nm attrs cs inn tl,
     Forall P cs -> P (Tree nm attrs cs inn tl)) ->
  forall t, P t.
Proof.
  intros HP. fix IH 1. intros [nm attrs cs inn tl]. apply HP.
  induction cs as [|c cs IHcs]; constructor; [apply IH|exact IHcs].
Qed.

Lemma repr_unfold h t a :
  repr h t a <->
  exists n, h !! a = Some n /\
    name n = t_name t /\ attributes n = t_attributes t /\
    inner n = t_inner t /\ tail n = t_tail t /\
    Forall2 (repr h) (t_children t) (children n).
Proof.
  destruct t as [nm attrs ts inn tl]. simpl.
  assert (Hall : forall cs,
    (fix all2 (ts : list tree) (cs : list addr) : Prop :=
       match ts, cs with
       | [], [] => True
       | t' :: ts', c :: cs' => repr h t' c /\ all2 ts' cs'
       | _, _ => False
       end) ts cs <-> Forall2 (repr h) ts cs).
  { induction ts as [|t' ts IH]; intros [|c cs]; split; try done.
    - inversion 1.
    - inversion 1.
    - intros [? ?]. constructor; [done|by apply IH].
    - inversion 1; subst. split; [done|by apply IH]. }
  split; intros (n & ? & ? & ? & ? & ? & ?); exists n;
    repeat split; try done; by apply Hall.
Qed.

Lemma height_child t c : c ∈ t_children t -> height c < height t.
Proof.
  destruct t as [nm attrs ts inn tl]. simpl.
  induction ts as [|t' ts IH]; [by intros ?%elem_of_nil|].
  intros [->|Hc]%elem_of_cons; simpl; [lia|].
  specialize (IH Hc). lia.
Qed.

(** Objects added to or changed in the store outside a tree leave the tree
    as it was. *)
Lemma repr_subseteq h h' t a : h ⊆ h' -> repr h t a -> repr h' t a.
Proof.
  intros Hsub. revert a.
  induction t as [nm attrs ts inn tl IH] using tree_ind_nested.
  intros a. rewrite !repr_unfold. simpl.
  intros (n & Hn & ? & ? & ? & ? & Hcs). exists n.
  split; [by eapply lookup_weaken|]. repeat split; try done.
  clear Hn. induction Hcs as [|t' c ts cs Hc _ IHcs]; constructor.
  - apply Forall_cons in IH as [IH _]. by apply IH.
  - apply Forall_cons in IH as [_ IH]. by apply IHcs.
Qed.

End tree_facts.

(** ** Serialization *)

Section serializer_facts.

Context `{Encoding}.

Implicit Types (n : XmlNode) (h : store) (this : addr) (s res k v : string).

Lemma sanitize_no_lt data enc : Str.mem "<"%char (sanitize data enc) = false.
Proof.
  unfold sanitize. destruct (is_valid_utf8 _); apply xml_escape_no_lt.
Qed.

Lemma render_attribute_text res it :
  render_attribute res it = res +:+ attribute_text it.
Proof.
  unfold render_attribute, attribute_text, put. by rewrite !str_app_assoc.
Qed.

Lemma fold_left_render_attribute l res :
  fold_left render_attribute l res = res +:+ attributes_text l.
Proof.
  revert res. induction l as [|it l IH]; intros res; simpl.
  - by rewrite str_app_nil_r.
  - by rewrite IH, render_attribute_text, str_app_assoc.
Qed.

Lemma attributes_text_app l1 l2 :
  attributes_text (l1 ++ l2) = attributes_text l1 +:+ attributes_text l2.
Proof.
  induction l1 as [|it l1 IH]; [done|]. simpl.
  by rewrite IH, str_app_assoc.
Qed.

Lemma attributes_text_cons it l :
  attributes_text (it :: l) = attribute_text it +:+ attributes_text l.
Proof. reflexivity. Qed.

Lemma attribute_text_lt k v :
  Str.mem "<"%char (attribute_text (k, v)) = Str.mem "<"%char k.
Proof.
  unfold attribute_text. simpl.
  rewrite !mem_app, sanitize_no_lt.
  change (Str.mem "<"%char " ") with false.
  change (Str.mem "<"%char "='") with false.
  change (Str.mem "<"%char "'") with false.
  by rewrite !orb_false_r.
Qed.

Lemma attributes_text_lt l :
  Forall (fun it => Str.mem "<"%char it.1 = false) l ->
  Str.mem "<"%char (attributes_text l) = false.
Proof.
  induction 1 as [|[k v] l Hk _ IH]; [done|]. simpl in Hk.
  by rewrite attributes_text_cons, mem_app, attribute_text_lt, IH, Hk.
Qed.

(** The text of a node with no child and no inner text. *)
Lemma to_string_leaf fuel h this n :
  h !! this = Some n -> has_children n = false -> inner n = EmptyString ->
  to_string (S fuel) h this
  = Some ("<" +:+ name n +:+ attributes_text (StdMap.iter (attributes n))
          +:+ "/>" +:+ sanitize (tail n) default_encoding).
Proof.
  intros Hn Hc Hi. simpl. rewrite Hn. simpl. rewrite Hc, Hi. simpl.
  rewrite fold_left_render_attribute. unfold put.
  by rewrite !str_app_assoc.
Qed.

Lemma to_string_S fuel h this :
  to_string (S fuel) h this
  = (n ← h !! this;
     let res := EmptyString << "<" << name n in
     let res := fold_left render_attribute (StdMap.iter (attributes n)) res in
     res ← (if negb (has_children n) && Str.empty (inner n)
            then Some (res << "/>")
            else
              let res := res << ">" +:+ sanitize (inner n) default_encoding in
              res ← for_each
                      (fun child res =>
                         s ← to_string fuel h child; Some (res << s))
                      (children n) res;
              Some (res << "</" << get_name n << ">"));
     Some (res << sanitize (tail n) default_encoding)).
Proof. reflexivity. Qed.

(** [to_string] returns the text of the tree the node holds, whenever the
    fuel covers the height of the tree. *)
Lemma to_string_render t :
  forall fuel h this,
    repr h t this -> height t <= fuel ->
    to_string fuel h this = Some (render t).
Proof.
  induction t as [nm attrs ts inn tl IH] using tree_ind_nested.
  intros [|fuel] h this Hrepr Hfuel; [simpl in Hfuel; lia|].
  apply repr_unfold in Hrepr as (n & Hn & Hnm & Hat & Hin & Htl & Hcs).
  simpl in Hnm, Hat, Hin, Htl, Hcs.
  rewrite to_string_S, Hn. simpl.
  rewrite fold_left_render_attribute, Hnm, Hat, Hin, Htl.
  unfold put, get_name. rewrite Hnm.
  assert (Hloop : forall res,
    for_each (fun child res => s ← to_string fuel h child; Some (res +:+ s))
      (children n) res
    = Some (res +:+ fold_right (fun c acc => render c +:+ acc) EmptyString ts)).
  { assert (Hh : Forall (fun c => height c <= fuel) ts).
    { apply Forall_forall. intros c Hc.
      pose proof (height_child (Tree nm attrs ts inn tl) c Hc). lia. }
    clear Hfuel Hn.
    induction Hcs as [|t' c ts cs Hc _ IHcs]; intros res; simpl.
    - by rewrite str_app_nil_r.
    - apply Forall_cons in IH as [IHt IH].
      apply Forall_cons in Hh as [Ht Hh].
      rewrite (IHt _ _ _ Hc Ht). simpl.
      rewrite (IHcs IH Hh). by rewrite str_app_assoc. }
  unfold has_children.
  destruct Hcs as [|t' c ts cs Hc Hcs].
  - simpl. destruct (Str.empty inn); simpl; by rewrite !str_app_assoc.
  - rewrite Hloop. simpl. by rewrite !str_app_assoc.
Qed.

(** C1, as the code has it. The text of a node with no child and no inner
    text is the opening of the element, its attributes, the two characters
    that close it at once, and then the sanitized tail text: no closing
    tag is written.  The element ends in these two characters, and so does
    the whole text when the sanitized tail is empty.  When the name is not
    empty, does not start with a slash, and neither the name nor an
    attribute key holds a less-than sign, the text holds no less-than sign
    followed by a slash, hence no closing tag. *)
Theorem to_string_leaf_self_closes fuel h this n :
  h !! this = Some n -> has_children n = false -> inner n = EmptyString ->
  exists element,
    element = "<" +:+ name n
              +:+ attributes_text (StdMap.iter (attributes n)) +:+ "/>" /\
    to_string (S fuel) h this
      = Some (element +:+ sanitize (tail n) default_encoding) /\
    Str.ends_with "/>" element = true /\
    (sanitize (tail n) default_encoding = EmptyString ->
       exists s, to_string (S fuel) h this = Some s
                 /\ Str.ends_with "/>" s = true) /\
    (name n <> EmptyString -> String.prefix "/" (name n) = false ->
     Str.mem "<"%char (name n) = false ->
     (forall k v, attributes n !! k = Some v -> Str.mem "<"%char k = false) ->
     exists s, to_string (S fuel) h this = Some s
               /\ Str.contains "</" s = false
               /\ Str.contains ("</" +:+ name n +:+ ">") s = false).
Proof.
  intros Hn Hc Hi.
  pose proof (to_string_leaf fuel h this n Hn Hc Hi) as Hs.
  set (attrs := attributes_text (StdMap.iter (attributes n))) in *.
  set (tl := sanitize (tail n) default_encoding) in *.
  exists ("<" +:+ name n +:+ attrs +:+ "/>").
  split; [done|].
  assert (Hs' : to_string (S fuel) h this
                = Some (("<" +:+ name n +:+ attrs +:+ "/>") +:+ tl)).
  { rewrite Hs. f_equal. by rewrite !str_app_assoc. }
  assert (Hends : Str.ends_with "/>" ("<" +:+ name n +:+ attrs +:+ "/>")
                  = true).
  { apply ends_with_spec. exists ("<" +:+ name n +:+ attrs).
    by rewrite !str_app_assoc. }
  split; [exact Hs'|]. split; [exact Hends|]. split.
  - intros Htl. eexists. split; [exact Hs'|]. by rewrite Htl, str_app_nil_r.
  - intros Hne Hslash Hname Hkeys. eexists. split; [exact Hs'|].
    assert (Hno : Str.contains "</"
                    (("<" +:+ name n +:+ attrs +:+ "/>") +:+ tl) = false).
    { rewrite !str_app_assoc, (str_app_cons "<"%char EmptyString), str_app_nil_l.
      rewrite contains_cons, prefix_cons.
      destruct (ascii_dec "<"%char "<"%char) as [_|]; [|done].
      apply orb_false_intro.
      - destruct (name n) as [|a nm]; [done|].
        rewrite str_app_cons, prefix_cons.
        rewrite prefix_cons in Hslash.
        destruct (ascii_dec "/"%char a); [|done].
        by destruct nm.
      - apply contains_lt_free. rewrite !mem_app, Hname.
        unfold tl. rewrite sanitize_no_lt.
        unfold attrs. rewrite attributes_text_lt; [done|].
        apply Forall_forall. intros [k v] Hkv%elem_of_iter. by eapply Hkeys. }
    split; [done|].
    destruct (Str.contains ("</" +:+ name n +:+ ">") _) eqn:Hc'; [|done].
    apply contains_weaken in Hc'. by rewrite Hno in Hc'.
Qed.

(** C1 as stated fails: a node with no child and no inner text, and with
    tail text, is written with the tail after the element, so the text
    does not end where the element does. *)
Lemma to_string_leaf_with_tail_not_self_closed :
  has_children Sample.leaf_with_tail = false /\
  inner Sample.leaf_with_tail = EmptyString /\
  @to_string Utf8.encoding 1
    {[Sample.root := Sample.leaf_with_tail]} Sample.root
  = Some "<a/>x" /\
  Str.ends_with "/>" "<a/>x" = false.
Proof. by vm_compute. Qed.

(** The same for any collaborators that keep the one-letter tail as it
    is. *)
Lemma to_string_leaf_with_tail fuel :
  sanitize "x" default_encoding = "x" ->
  to_string (S fuel) {[Sample.root := Sample.leaf_with_tail]} Sample.root
  = Some "<a/>x".
Proof.
  intros Hx.
  rewrite (to_string_leaf _ _ _ Sample.leaf_with_tail); [|done..].
  simpl. rewrite iter_empty. simpl. by rewrite Hx.
Qed.

(** A node with an empty name and no attribute is written as the three
    characters of its own closing tag. *)
Lemma to_string_empty_name_is_closing_tag :
  @to_string Utf8.encoding 1
    {[Sample.root := XmlNode_ctor_name EmptyString]} Sample.root
  = Some "</>" /\
  Str.contains ("</" +:+ name (XmlNode_ctor_name EmptyString) +:+ ">") "</>"
  = true.
Proof. by vm_compute. Qed.

(** C10. The constructor taking a namespace and a name binds xmlns to the
    namespace given, the empty one included, so that a node built with an
    empty namespace is written with the attribute xmlns and an empty value;
    a node built by the one-string constructor from a name with no separator
    has no xmlns attribute and is written without one.  The empty text is
    taken to stay empty through [sanitize]. *)
Theorem XmlNode_ctor_ns_always_stores_xmlns xmlns name_ parent_ fuel h this :
  sanitize EmptyString default_encoding = EmptyString ->
  attributes (XmlNode_ctor_ns xmlns name_ parent_) !! "xmlns" = Some xmlns /\
  attributes (XmlNode_ctor_ns EmptyString name_ parent_) !! "xmlns"
    = Some EmptyString /\
  (h !! this = Some (XmlNode_ctor_ns EmptyString name_ parent_) ->
     to_string (S fuel) h this = Some ("<" +:+ name_ +:+ " xmlns=''/>")) /\
  (Str.mem sep name_ = false ->
     attributes (XmlNode_ctor name_ parent_) !! "xmlns" = None /\
     (h !! this = Some (XmlNode_ctor name_ parent_) ->
        to_string (S fuel) h this = Some ("<" +:+ name_ +:+ "/>"))).
Proof.
  intros Hempty.
  split; [apply lookup_insert_eq|]. split; [apply lookup_insert_eq|]. split.
  - intros Hn. rewrite (to_string_leaf _ _ _ _ Hn); [|done..]. simpl.
    unfold StdMap.assign. rewrite insert_empty, iter_singleton. simpl.
    unfold attribute_text. simpl. rewrite Hempty.
    by rewrite !str_app_nil_r, ?str_app_nil_l.
  - intros Hsep%rfind_None. unfold XmlNode_ctor. rewrite Hsep.
    split; [done|]. intros Hn.
    rewrite (to_string_leaf _ _ _ _ Hn); [|done..]. simpl.
    rewrite iter_empty. simpl. by rewrite Hempty, !str_app_nil_r, ?str_app_nil_l.
Qed.

(** C6. The text of a node starts with its name followed by its
    attributes, each once, by strictly ascending key: of two keys bound
    in the node, the smaller is written before the larger.  The order in
    which [set_attribute] bound them plays no part: two bindings of
    distinct keys made in either order leave the same node. *)
Theorem attributes_render_in_key_order h t this :
  repr h t this ->
  exists n rest,
    h !! this = Some n /\ attributes n = t_attributes t /\
    to_string (height t) h this
      = Some ("<" +:+ name n
              +:+ attributes_text (StdMap.iter (attributes n)) +:+ rest) /\
    StronglySorted StdMap.key_lt (StdMap.iter (attributes n)) /\
    (forall k v,
       (k, v) ∈ StdMap.iter (attributes n) <-> attributes n !! k = Some v) /\
    (forall k1 v1 k2 v2,
       attributes n !! k1 = Some v1 -> attributes n !! k2 = Some v2 ->
       String.ltb k1 k2 = true ->
       exists pre mid post,
         attributes_text (StdMap.iter (attributes n))
         = pre +:+ attribute_text (k1, v1) +:+ mid
           +:+ attribute_text (k2, v2) +:+ post) /\
    (forall m k1 v1 k2 v2, k1 <> k2 ->
       set_attribute k1 v1 (set_attribute k2 v2 m)
       = set_attribute k2 v2 (set_attribute k1 v1 m)).
Proof.
  intros Hrepr.
  pose proof (to_string_render t (height t) h this Hrepr (le_n _)) as Hs.
  apply repr_unfold in Hrepr as (n & Hn & Hnm & Hat & _).
  exists n. eexists. split; [done|]. split; [done|]. split.
  { rewrite Hs, Hnm, Hat. by destruct t. }
  split; [apply iter_sorted|]. split; [apply elem_of_iter|]. split.
  - intros k1 v1 k2 v2 H1 H2 Hlt.
    destruct (iter_split _ _ _ _ _ H1 H2 Hlt) as (l1 & l2 & l3 & ->).
    exists (attributes_text l1), (attributes_text l2), (attributes_text l3).
    by rewrite attributes_text_app, attributes_text_cons,
      attributes_text_app, attributes_text_cons.
  - intros m k1 v1 k2 v2. apply set_attribute_comm.
Qed.

(** The example of the specification: [b] is bound before [a], and [a] is
    written before [b]. *)
Example to_string_b_then_a :
  @to_string Utf8.encoding 1
    {[Sample.root := Sample.b_then_a]} Sample.root
  = Some "<n a='1' b='2'/>".
Proof. by vm_compute. Qed.

(** The end-to-end example of the specification. *)
Example to_string_message_body :
  ('(_, h) ← add_child Sample.root Sample.kid Sample.detached;
   @to_string Utf8.encoding 2 h Sample.root)
  = Some "<message to='u@h'><body>hi&lt;3</body></message>".
Proof. by vm_compute. Qed.

End serializer_facts.

Lemma to_string_leaf_self_closes_witness :
  ({[Sample.root := Sample.leaf]} : store) !! Sample.root = Some Sample.leaf /\
  has_children Sample.leaf = false /\
  inner Sample.leaf = EmptyString /\
  exists element,
    @to_string Utf8.encoding 1 {[Sample.root := Sample.leaf]} Sample.root
    = Some (element
            +:+ @sanitize Utf8.encoding (tail Sample.leaf) default_encoding)
    /\ Str.ends_with "/>" element = true.
Proof.
  split; [reflexivity|]. split; [reflexivity|]. split; [reflexivity|].
  destruct (@to_string_leaf_self_closes Utf8.encoding 0
              {[Sample.root := Sample.leaf]} Sample.root Sample.leaf)
    as (element & _ & Hs & Hends & _); [reflexivity..|].
  exists element. by split.
Defined.

Lemma XmlNode_ctor_ns_always_stores_xmlns_witness :
  @sanitize Utf8.encoding EmptyString default_encoding = EmptyString /\
  attributes (XmlNode_ctor_ns EmptyString "x" None) !! "xmlns"
  = Some EmptyString /\
  @to_string Utf8.encoding 1
    {[Sample.root := XmlNode_ctor_ns EmptyString "x" None]} Sample.root
  = Some "<x xmlns=''/>" /\
  attributes (XmlNode_ctor "x" None) !! "xmlns" = None /\
  @to_string Utf8.encoding 1
    {[Sample.root := XmlNode_ctor "x" None]} Sample.root
  = Some "<x/>".
Proof.
  split; [reflexivity|].
  destruct (@XmlNode_ctor_ns_always_stores_xmlns Utf8.encoding
              EmptyString "x" None 0
              {[Sample.root := XmlNode_ctor_ns EmptyString "x" None]}
              Sample.root)
    as (_ & Hattr & Htext & _); [reflexivity|].
  split; [exact Hattr|]. split; [apply Htext; reflexivity|].
  destruct (@XmlNode_ctor_ns_always_stores_xmlns Utf8.encoding
              EmptyString "x" None 0
              {[Sample.root := XmlNode_ctor "x" None]} Sample.root)
    as (_ & _ & _ & Hplain); [reflexivity|].
  destruct Hplain as [Hnone Hplain]; [reflexivity|].
  split; [exact Hnone|]. apply Hplain. reflexivity.
Defined.

Lemma attributes_render_in_key_order_witness :
  repr {[Sample.root := Sample.b_then_a]} Sample.b_then_a_tree Sample.root /\
  exists n rest,
    ({[Sample.root := Sample.b_then_a]} : store) !! Sample.root = Some n /\
    @to_string Utf8.encoding (height Sample.b_then_a_tree)
      {[Sample.root := Sample.b_then_a]} Sample.root
    = Some ("<" +:+ name n
            +:+ @attributes_text Utf8.encoding (StdMap.iter (attributes n))
            +:+ rest) /\
    StronglySorted StdMap.key_lt (StdMap.iter (attributes n)).
Proof.
  assert (Hrepr : repr {[Sample.root := Sample.b_then_a]}
                    Sample.b_then_a_tree Sample.root).
  { exists Sample.b_then_a. repeat split; by vm_compute. }
  split; [exact Hrepr|].
  destruct (@attributes_render_in_key_order Utf8.encoding _ _ _ Hrepr)
    as (n & rest & Hn & _ & Hs & Hsorted & _).
  exists n, rest. by repeat split.
Defined.

(** ** Children and parents *)

Section store_facts.

Implicit Types (h : store) (this child node : addr) (n p c : XmlNode)
  (t : tree).

Lemma call_Some f this h n :
  h !! this = Some n -> call f this h = Some (<[this := f n]> h).
Proof. intros Hn. unfold call. by rewrite Hn. Qed.

Lemma same_content_set_parent q c : same_content c (set_parent q c).
Proof. by repeat split. Qed.

Lemma same_content_refl c : same_content c c.
Proof. by repeat split. Qed.

(** Changing the parent pointer of an object leaves every tree as it
    was. *)
Lemma repr_update_content h t a b nb nb' :
  h !! b = Some nb -> same_content nb nb' ->
  repr h t a -> repr (<[b := nb']> h) t a.
Proof.
  intros Hb (Hnm & Hat & Hch & Hin & Htl). revert a.
  induction t as [nm attrs ts inn tl IH] using tree_ind_nested.
  intros a. rewrite !repr_unfold. simpl.
  intros (n & Hn & ? & ? & ? & ? & Hcs).
  assert (Hkids : Forall2 (repr (<[b := nb']> h)) ts (children n)).
  { clear Hn. induction Hcs as [|t' c ts cs Hc _ IHcs]; constructor.
    - apply Forall_cons in IH as [IH _]. by apply IH.
    - apply Forall_cons in IH as [_ IH]. by apply IHcs. }
  destruct (decide (b = a)) as [->|Hne].
  - exists nb'. rewrite lookup_insert_eq. simplify_eq.
    repeat split; try congruence.
  - exists n. by rewrite lookup_insert_ne.
Qed.

(** The unique-pointer form: the store after the call. *)
Lemma add_child_Some h this child p c :
  h !! this = Some p -> h !! child = Some c ->
  add_child this child h
  = Some (child,
          <[this := push_back child
                      (if decide (child = this)
                       then set_parent (Some this) c else p)]>
            (<[child := set_parent (Some this) c]> h)).
Proof.
  intros Hp Hc. unfold add_child.
  rewrite (call_Some _ _ _ _ Hc). simpl.
  destruct (decide (child = this)) as [->|Hne].
  - by rewrite (call_Some _ _ _ (set_parent (Some this) c))
      by apply lookup_insert_eq.
  - by rewrite (call_Some _ _ _ p) by by rewrite lookup_insert_ne.
Qed.

Lemma add_child_attached h this child p c :
  h !! this = Some p -> h !! child = Some c ->
  exists h',
    add_child this child h = Some (child, h') /\
    attached_last h' this child /\
    (exists p', h' !! this = Some p'
                /\ children p' = children p ++ [child]) /\
    (exists c', h' !! child = Some c' /\ name c' = name c
                /\ attributes c' = attributes c /\ inner c' = inner c
                /\ tail c' = tail c) /\
    (child <> this -> h' !! child = Some (set_parent (Some this) c)) /\
    (child <> this -> h' !! this = Some (push_back child p)) /\
    (forall a, a <> this -> a <> child -> h' !! a = h !! a).
Proof.
  intros Hp Hc. eexists. split; [by apply add_child_Some|].
  destruct (decide (child = this)) as [->|Hne].
  - assert (c = p) as -> by congruence.
    rewrite !lookup_insert_eq.
    split; [|split; [|split; [|split; [done|split; [done|]]]]].
    + do 2 eexists. rewrite !lookup_insert_eq.
      split; [done|]. split; [done|]. split; [done|]. simpl.
      apply last_snoc.
    + eexists. split; [done|]. done.
    + eexists. split; [done|]. done.
    + intros a Ha _. by rewrite !lookup_insert_ne.
  - rewrite lookup_insert_eq.
    rewrite lookup_insert_ne, lookup_insert_eq by done.
    split; [|split; [|split; [|split; [done|split; [done|]]]]].
    + do 2 eexists. rewrite lookup_insert_eq.
      rewrite lookup_insert_ne, lookup_insert_eq by done.
      split; [done|]. split; [done|]. split; [done|]. simpl.
      apply last_snoc.
    + eexists. split; [done|]. done.
    + eexists. split; [done|]. done.
    + intros a Ha Ha'. by rewrite !lookup_insert_ne.
Qed.

(** The move form: a new object takes what [child] held, [child] is left
    moved from, and the new object is attached. *)
Lemma add_child_move_attached h this child p c :
  h !! this = Some p -> h !! child = Some c ->
  exists ret h',
    add_child_move this child h = Some (ret, h') /\
    h !! ret = None /\
    attached_last h' this ret /\
    h' !! ret = Some (set_parent (Some this) c) /\
    (child <> this ->
       h' !! this = Some (push_back ret p) /\
       h' !! child = Some (moved_from c)) /\
    (forall a, a <> this -> a <> child -> a <> ret -> h' !! a = h !! a).
Proof.
  intros Hp Hc. unfold add_child_move, XmlNode_move.
  set (new_node := fresh (dom h)).
  assert (Hfresh : h !! new_node = None).
  { apply not_elem_of_dom, is_fresh. }
  assert (Hnt : new_node <> this) by congruence.
  assert (Hnc : new_node <> child) by congruence.
  rewrite Hc. simpl.
  set (h1 := <[new_node := c]> (<[child := moved_from c]> h)).
  assert (H1new : h1 !! new_node = Some c) by apply lookup_insert_eq.
  assert (exists p1, h1 !! this = Some p1
            /\ (child <> this -> p1 = p)) as (p1 & H1this & Hp1).
  { unfold h1. rewrite lookup_insert_ne by done.
    destruct (decide (child = this)) as [->|Hne].
    - rewrite lookup_insert_eq. by eexists.
    - rewrite lookup_insert_ne by done. by exists p. }
  destruct (add_child_attached h1 this new_node p1 c H1this H1new)
    as (h' & -> & Hatt & _ & _ & Hret & Hthis' & Hframe).
  exists new_node, h'. split; [done|]. split; [done|]. split; [done|].
  split; [by apply Hret|]. split.
  - intros Hne. rewrite (Hthis' Hnt), (Hp1 Hne). split; [done|].
    rewrite Hframe by done. unfold h1.
    by rewrite lookup_insert_ne, lookup_insert_eq.
  - intros a Ha1 Ha2 Ha3. rewrite Hframe by done. unfold h1.
    by rewrite !lookup_insert_ne.
Qed.

Lemma XmlNode_copy_S fuel this node h :
  XmlNode_copy (S fuel) this node h
  = (n ← h !! node;
     for_each
       (fun child h1 =>
          let p := fresh (dom h1) in
          h2 ← XmlNode_copy fuel p child h1;
          snd <$> add_child this p h2)
       (children n)
       (<[this := mkXmlNode (name n) None (attributes n) [] (inner n)
                    (tail n)]> h)).
Proof. reflexivity. Qed.

(** The loop of the copy constructor over the children of the source. *)
Lemma XmlNode_copy_children fuel h this ts cs :
  h !! this = None ->
  Forall2 (repr h) ts cs -> Forall (copy_ok fuel) ts ->
  forall hc m,
    hc ##ₘ h -> hc !! this = Some m ->
    exists hc' ps,
      for_each
        (fun child h1 =>
           let p := fresh (dom h1) in
           h2 ← XmlNode_copy fuel p child h1;
           snd <$> add_child this p h2)
        cs (hc ∪ h) = Some (hc' ∪ h) /\
      hc' ##ₘ h /\
      hc' !! this
        = Some (mkXmlNode (name m) (parent m) (attributes m)
                  (children m ++ ps) (inner m) (tail m)) /\
      Forall2 (repr (delete this hc')) ts ps /\
      delete this hc ⊆ delete this hc'.
Proof.
  intros Hthis Hcs. induction Hcs as [|t' c ts cs Hc _ IHcs].
  - intros _ hc m Hdisj Hm. exists hc, []. simpl.
    rewrite app_nil_r. split; [done|]. split; [done|].
    split; [by destruct m|]. split; [constructor|done].
  - intros [Hok Hoks]%Forall_cons hc m Hdisj Hm.
    cbn [for_each].
    set (p := fresh (dom (hc ∪ h))).
    assert (Hp : (hc ∪ h) !! p = None) by apply not_elem_of_dom, is_fresh.
    apply lookup_union_None in Hp as [Hphc Hph].
    assert (Hpt : p <> this) by congruence.
    destruct (Hok (hc ∪ h) p c) as (hcc & n' & Hcopy & Hdisj' & Hrepr & Hn' & Hpar).
    { eapply repr_subseteq; [|done]. by apply map_union_subseteq_r. }
    { by apply lookup_union_None. }
    apply map_disjoint_union_r in Hdisj' as [Hcc_hc Hcc_h].
    assert (Hcc_this : hcc !! this = None).
    { eapply map_disjoint_Some_r; [exact Hcc_hc|exact Hm]. }
    simpl. rewrite Hcopy. simpl.
    rewrite (add_child_Some _ _ _ m n'); cycle 1.
    { rewrite lookup_union_r by done. by apply lookup_union_Some_l. }
    { by apply lookup_union_Some_l. }
    rewrite decide_False by done. simpl.
    set (hc1 := <[this := push_back p m]>
                  (<[p := set_parent (Some this) n']> (hcc ∪ hc))).
    assert (Heq : <[this := push_back p m]>
                    (<[p := set_parent (Some this) n']> (hcc ∪ (hc ∪ h)))
                  = hc1 ∪ h).
    { unfold hc1. by rewrite (assoc_L (∪)), !insert_union_l. }
    rewrite Heq.
    assert (Hdisj1 : hc1 ##ₘ h).
    { unfold hc1. apply map_disjoint_insert_l_2; [done|].
      apply map_disjoint_insert_l_2; [done|].
      by apply map_disjoint_union_l_2. }
    destruct (IHcs Hoks hc1 (push_back p m) Hdisj1)
      as (hc' & ps & Hloop & Hdisj2 & Hthis' & Hreprs & Hsub).
    { unfold hc1. apply lookup_insert_eq. }
    assert (Hdel1 : delete this hc1
                    = <[p := set_parent (Some this) n']>
                        (hcc ∪ delete this hc)).
    { unfold hc1. rewrite delete_insert_eq, delete_insert_ne by done.
      rewrite delete_union. by rewrite (delete_id hcc). }
    exists hc', (p :: ps). split; [done|]. split; [done|]. split.
    { rewrite Hthis'. simpl. by rewrite <- (assoc_L (++)). }
    split.
    + constructor; [|done].
      eapply repr_subseteq; [exact Hsub|]. rewrite Hdel1.
      eapply repr_subseteq;
        [apply insert_mono, map_union_subseteq_l|].
      eapply repr_update_content; [done|apply same_content_set_parent|done].
    + etrans; [|exact Hsub]. rewrite Hdel1.
      apply map_subseteq_spec. intros a y Hay.
      assert (a <> p).
      { intros ->. apply lookup_delete_Some in Hay as [_ Hay]. congruence. }
      rewrite lookup_insert_ne by done.
      rewrite lookup_union_r; [done|].
      apply lookup_delete_Some in Hay as [_ Hay].
      eapply map_disjoint_Some_r; [exact Hcc_hc|exact Hay].
Qed.

Lemma XmlNode_copy_spec t :
  forall fuel, height t <= fuel -> copy_ok fuel t.
Proof.
  induction t as [nm attrs ts inn tl IH] using tree_ind_nested.
  intros [|fuel] Hfuel; [simpl in Hfuel; lia|].
  intros h this node Hrepr Hthis.
  apply repr_unfold in Hrepr as (n & Hn & Hnm & Hat & Hin & Htl & Hcs).
  simpl in Hnm, Hat, Hin, Htl, Hcs.
  rewrite XmlNode_copy_S, Hn. simpl.
  set (init := mkXmlNode (name n) None (attributes n) [] (inner n) (tail n)).
  assert (Hoks : Forall (copy_ok fuel) ts).
  { apply Forall_forall. intros c Hc.
    rewrite Forall_forall in IH. apply IH; [done|].
    pose proof (height_child (Tree nm attrs ts inn tl) c Hc). lia. }
  destruct (XmlNode_copy_children fuel h this ts (children n) Hthis Hcs Hoks
              {[this := init]} init)
    as (hc & ps & Hloop & Hdisj & Hthis' & Hreprs & _).
  { by apply map_disjoint_singleton_l. }
  { apply lookup_singleton_eq. }
  rewrite <- insert_union_singleton_l in Hloop.
  exists hc. eexists. split; [exact Hloop|]. split; [done|].
  split; [|split; [exact Hthis'|done]].
  apply repr_unfold. eexists. split; [exact Hthis'|]. simpl.
  repeat split; try done.
  eapply Forall2_impl; [exact Hreprs|].
  intros t' a. apply repr_subseteq, delete_subseteq.
Qed.

(** The copy form: a new object is built as a copy of [child], and
    attached. *)
Lemma add_child_copy_attached h this child p t fuel :
  h !! this = Some p -> repr h t child -> height t <= fuel ->
  exists ret h',
    add_child_copy fuel this child h = Some (ret, h') /\
    h !! ret = None /\
    attached_last h' this ret /\
    repr h' t ret /\
    h' !! this = Some (push_back ret p) /\
    (forall a, a <> this -> h !! a = h' !! a \/ h !! a = None).
Proof.
  intros Hp Hrepr Hfuel. unfold add_child_copy.
  set (new_node := fresh (dom h)).
  assert (Hfresh : h !! new_node = None).
  { apply not_elem_of_dom, is_fresh. }
  assert (Hnt : new_node <> this) by congruence.
  destruct (XmlNode_copy_spec t fuel Hfuel h new_node child Hrepr Hfresh)
    as (hc & n' & -> & Hdisj & Hcopy & Hn' & Hpar).
  simpl.
  assert (Hc_this : hc !! this = None).
  { eapply map_disjoint_Some_r; [exact Hdisj|exact Hp]. }
  assert (H1this : (hc ∪ h) !! this = Some p).
  { by rewrite lookup_union_r. }
  assert (H1new : (hc ∪ h) !! new_node = Some n').
  { by apply lookup_union_Some_l. }
  destruct (add_child_attached _ this new_node p n' H1this H1new)
    as (h' & Hadd & Hatt & _ & _ & Hret & Hthis' & Hframe).
  assert (Hh' : h' = <[this := push_back new_node p]>
                       (<[new_node := set_parent (Some this) n']> (hc ∪ h))).
  { rewrite (add_child_Some _ _ _ p n' H1this H1new) in Hadd.
    rewrite decide_False in Hadd by done. congruence. }
  exists new_node, h'. split; [done|]. split; [done|]. split; [done|].
  split; [|split; [by apply Hthis'|]].
  - eapply repr_subseteq;
      [|eapply (repr_update_content hc);
          [exact Hn'|apply (same_content_set_parent (Some this))|exact Hcopy]].
    rewrite Hh'. apply map_subseteq_spec. intros a y Hay.
    assert (a <> this).
    { intros ->. rewrite lookup_insert_ne in Hay by done. congruence. }
    rewrite lookup_insert_ne by done.
    destruct (decide (a = new_node)) as [->|Hane].
    + rewrite lookup_insert_eq in Hay |- *. done.
    + rewrite lookup_insert_ne in Hay |- * by done.
      by apply lookup_union_Some_l.
  - intros a Hat.
    destruct (h !! a) as [y|] eqn:Hay; [left|by right].
    rewrite Hframe by congruence. symmetry.
    rewrite lookup_union_r; [done|].
    eapply map_disjoint_Some_r; [exact Hdisj|exact Hay].
Qed.

(** C3. Whichever way the child is handed over, as an owning pointer, by
    move or by copy, [add_child] returns the address of the attached
    object; its parent pointer is the node called and it is the last
    element of that node's child list.  With an owning pointer the object
    attached is the one given, and the child list is the list there was
    with this one element added at the end; moved, it is a new object that
    holds what the one given held; copied, it is a new object that holds
    the same tree.  In the last two forms the child list is again the list
    there was with one element added at the end (when moved, provided the
    node moved is not the node called, whose list the move empties
    first).  The copy is made whenever the fuel covers the height of the
    tree the child holds. *)
Theorem add_child_attaches_last h this child p c :
  h !! this = Some p -> h !! child = Some c ->
  (exists h',
     add_child this child h = Some (child, h') /\
     attached_last h' this child /\
     (exists p', h' !! this = Some p'
                 /\ children p' = children p ++ [child]) /\
     (exists c', h' !! child = Some c' /\ name c' = name c
                 /\ attributes c' = attributes c /\ inner c' = inner c
                 /\ tail c' = tail c) /\
     (child <> this ->
        h' !! this = Some (push_back child p) /\
        h' !! child = Some (set_parent (Some this) c))) /\
  (exists ret h',
     add_child_move this child h = Some (ret, h') /\
     h !! ret = None /\
     attached_last h' this ret /\
     h' !! ret = Some (set_parent (Some this) c) /\
     same_content c (set_parent (Some this) c) /\
     (child <> this ->
        h' !! this = Some (push_back ret p) /\
        children (push_back ret p) = children p ++ [ret])) /\
  (forall t fuel,
     repr h t child -> height t <= fuel ->
     exists ret h',
       add_child_copy fuel this child h = Some (ret, h') /\
       h !! ret = None /\
       attached_last h' this ret /\
       h' !! this = Some (push_back ret p) /\
       children (push_back ret p) = children p ++ [ret] /\
       repr h' t ret).
Proof.
  intros Hp Hc. split; [|split].
  - destruct (add_child_attached h this child p c Hp Hc)
      as (h' & Hadd & Hatt & Hlist & Hcont & Hchild & Hthis & _).
    exists h'. repeat split; auto.
  - destruct (add_child_move_attached h this child p c Hp Hc)
      as (ret & h' & Hadd & Hfresh & Hatt & Hret & Hrest & _).
    exists ret, h'. split; [done|]. split; [done|]. split; [done|].
    split; [done|]. split; [apply same_content_set_parent|].
    intros Hne. by destruct (Hrest Hne) as [? _].
  - intros t fuel Hrepr Hfuel.
    destruct (add_child_copy_attached h this child p t fuel Hp Hrepr Hfuel)
      as (ret & h' & Hadd & Hfresh & Hatt & Hcopy & Hthis & _).
    exists ret, h'. repeat split; auto.
Qed.

Lemma add_child_attaches_last_witness :
  Sample.detached !! Sample.root = Some Sample.message /\
  Sample.detached !! Sample.kid = Some Sample.body /\
  repr Sample.detached Sample.body_tree Sample.kid /\
  height Sample.body_tree <= 1 /\
  (exists h',
     add_child Sample.root Sample.kid Sample.detached = Some (Sample.kid, h')
     /\ attached_last h' Sample.root Sample.kid) /\
  (exists ret h',
     add_child_move Sample.root Sample.kid Sample.detached = Some (ret, h')
     /\ attached_last h' Sample.root ret) /\
  (exists ret h',
     add_child_copy 1 Sample.root Sample.kid Sample.detached = Some (ret, h')
     /\ attached_last h' Sample.root ret
     /\ repr h' Sample.body_tree ret).
Proof.
  assert (Hroot : Sample.detached !! Sample.root = Some Sample.message)
    by reflexivity.
  assert (Hkid : Sample.detached !! Sample.kid = Some Sample.body)
    by reflexivity.
  assert (Hrepr : repr Sample.detached Sample.body_tree Sample.kid).
  { exists Sample.body. repeat split; by vm_compute. }
  assert (Hfuel : height Sample.body_tree <= 1) by (simpl; lia).
  split; [exact Hroot|]. split; [exact Hkid|]. split; [exact Hrepr|].
  split; [exact Hfuel|].
  destruct (add_child_attaches_last _ _ _ _ _ Hroot Hkid)
    as ((h1 & Hadd1 & Hatt1 & _)
        & (r2 & h2 & Hadd2 & _ & Hatt2 & _)
        & Hcopies).
  destruct (Hcopies _ _ Hrepr Hfuel)
    as (r3 & h3 & Hadd3 & _ & Hatt3 & _ & _ & Hcopy).
  split; [by exists h1|]. split; [by exists r2, h2|]. by exists r3, h3.
Defined.

(** The move form sets the parent of the node it attaches and of no other:
    a child of the node moved still points at the object moved from. *)
Example add_child_move_keeps_grandchild_parent :
  ('(ret, h) ←
     add_child_move Sample.spare Sample.root
       (<[Sample.spare := XmlNode_ctor_name "stream"]> Sample.attached);
   moved ← h !! ret;
   grandchild ← h !! Sample.kid;
   Some (ret, children moved, parent moved, parent grandchild))
  = Some (4%positive, [Sample.kid], Some Sample.spare, Some Sample.root).
Proof. by vm_compute. Qed.

(** The three forms on the sample store. *)
Example add_child_three_forms :
  (fst <$> add_child Sample.root Sample.kid Sample.detached)
  = Some Sample.kid /\
  (fst <$> add_child_move Sample.root Sample.kid Sample.detached)
  = Some Sample.spare /\
  (fst <$> add_child_copy 1 Sample.root Sample.kid Sample.detached)
  = Some Sample.spare /\
  (snd <$> add_child Sample.root Sample.kid Sample.detached)
  = Some Sample.attached.
Proof. by vm_compute. Qed.

(** The destructor of a builder that is alive, for a parent that is
    alive. *)
Lemma XmlSubNode_dtor_attaches h b P n :
  h !! parent_to_add b = Some P -> h !! self b = Some n ->
  parent_to_add b <> self b ->
  exists attached h',
    XmlSubNode_dtor b h = Some (attached, h') /\
    h !! attached = None /\
    attached_last h' (parent_to_add b) attached /\
    h' !! parent_to_add b = Some (push_back attached P) /\
    h' !! attached = Some (set_parent (Some (parent_to_add b)) n) /\
    h' !! self b = None /\
    (forall a, a <> parent_to_add b -> a <> self b -> a <> attached ->
       h' !! a = h !! a).
Proof.
  intros HP Hn Hne. unfold XmlSubNode_dtor.
  destruct (add_child_move_attached h _ _ P n HP Hn)
    as (ret & h' & -> & Hfresh & Hatt & Hret & Hrest & Hframe).
  destruct (Hrest (not_eq_sym Hne)) as [Hthis Hself]. simpl.
  assert (Hrs : ret <> self b) by congruence.
  exists ret, (delete (self b) h').
  split; [done|]. split; [done|]. split.
  { destruct Hatt as (p' & c' & ? & ? & ? & ?). exists p', c'.
    by rewrite !lookup_delete_ne. }
  rewrite !lookup_delete_ne by done. rewrite lookup_delete_eq.
  split; [done|]. split; [done|]. split; [done|].
  intros a ? ? ?. rewrite lookup_delete_ne by done. by apply Hframe.
Qed.

(** C4. A block declares a builder for a parent that is alive and runs any
    code.  If this code leaves the parent and the builder alive, then
    however control leaves the block, by falling through, by an early
    return or by a failure that propagates, the destructor moves what the
    builder holds into a new object, which becomes the last child of the
    parent, with the parent as its parent pointer; the child list of the
    parent is the list it was at that point with this one element added;
    the builder is no more.  This holds for either constructor of the
    builder. *)
Theorem scope_attaches_on_every_exit ctor parent_ref xmlns name_ body h P0 e
    h2 P n :
  ctor = (fun this => XmlSubNode_ctor this parent_ref name_)
  \/ ctor = (fun this => XmlSubNode_ctor_ns this parent_ref xmlns name_) ->
  h !! parent_ref = Some P0 ->
  body (fresh (dom h)) (ctor (fresh (dom h)) h).2 = Some (e, h2) ->
  h2 !! parent_ref = Some P -> h2 !! fresh (dom h) = Some n ->
  exists attached h3,
    scope ctor body h = Some (e, attached, h3) /\
    attached_last h3 parent_ref attached /\
    h3 !! parent_ref = Some (push_back attached P) /\
    children (push_back attached P) = children P ++ [attached] /\
    h3 !! attached = Some (set_parent (Some parent_ref) n) /\
    same_content n (set_parent (Some parent_ref) n) /\
    h2 !! attached = None /\
    h3 !! fresh (dom h) = None.
Proof.
  intros Hctor HP0 Hbody HP Hn.
  assert (Hfresh : h !! fresh (dom h) = None).
  { apply not_elem_of_dom, is_fresh. }
  assert (Hne : parent_ref <> fresh (dom h)) by congruence.
  assert (Hb : (ctor (fresh (dom h)) h).1
               = mkXmlSubNode (fresh (dom h)) parent_ref).
  { by destruct Hctor as [-> | ->]. }
  unfold scope.
  destruct (ctor (fresh (dom h)) h) as [b h1] eqn:Hc. simpl in Hb, Hbody.
  subst b. rewrite Hbody. simpl.
  destruct (XmlSubNode_dtor_attaches h2
              (mkXmlSubNode (fresh (dom h)) parent_ref) P n HP Hn Hne)
    as (attached & h3 & -> & Hnew & Hatt & Hthis & Hret & Hgone & _).
  simpl in *. exists attached, h3. repeat split; auto.
Qed.

Lemma scope_attaches_on_every_exit_witness :
  Sample.detached !! Sample.root = Some Sample.message /\
  exists h2 n attached h3,
    Sample.failing_body (fresh (dom Sample.detached))
      (XmlSubNode_ctor (fresh (dom Sample.detached)) Sample.root "body"
         Sample.detached).2
    = Some (Propagate, h2) /\
    h2 !! Sample.root = Some Sample.message /\
    h2 !! fresh (dom Sample.detached) = Some n /\
    scope (fun this => XmlSubNode_ctor this Sample.root "body")
      Sample.failing_body Sample.detached
    = Some (Propagate, attached, h3) /\
    attached_last h3 Sample.root attached /\
    h3 !! attached = Some (set_parent (Some Sample.root) n).
Proof.
  split; [reflexivity|].
  assert (exists h2,
    Sample.failing_body (fresh (dom Sample.detached))
      (XmlSubNode_ctor (fresh (dom Sample.detached)) Sample.root "body"
         Sample.detached).2
    = Some (Propagate, h2) /\
    h2 !! Sample.root = Some Sample.message /\
    h2 !! fresh (dom Sample.detached)
    = Some (set_inner "hi" (XmlNode_ctor_name "body")))
    as (h2 & Hbody & HP & Hn).
  { eexists. split; [vm_compute; reflexivity|]. by vm_compute. }
  destruct (scope_attaches_on_every_exit
              (fun this => XmlSubNode_ctor this Sample.root "body")
              Sample.root EmptyString "body" Sample.failing_body
              Sample.detached Sample.message Propagate h2 Sample.message
              (set_inner "hi" (XmlNode_ctor_name "body")))
    as (attached & h3 & Hscope & Hatt & _ & _ & Hnode & _);
    [by left|reflexivity|exact Hbody|exact HP|exact Hn|].
  exists h2, (set_inner "hi" (XmlNode_ctor_name "body")), attached, h3.
  by repeat split.
Defined.

(** A block that fails after setting the inner text of its builder: the
    parent has the node as its last child all the same. *)
Example scope_failing_body :
  ('(e, attached, h) ←
     scope (fun this => XmlSubNode_ctor this Sample.root "body")
       Sample.failing_body {[Sample.root := Sample.message]};
   s ← @to_string Utf8.encoding 2 h Sample.root;
   Some (e, s))
  = Some (Propagate, "<message to='u@h'><body>hi</body></message>").
Proof. by vm_compute. Qed.

(** C5. The copy constructor, run at a free address on a node that holds
    a tree, returns.  The new object holds the same tree: name, attributes,
    inner and tail text, and the children, copied in turn.  Its parent
    pointer is null, whatever the parent of the source.  Every object
    there was is as it was.  The copy is made of new objects only: a
    change to any new object, such as binding an attribute in the copy,
    leaves every former object and the tree of the source as they were, and
    a change to any former object, such as binding an attribute in the
    source, leaves the tree of the copy as it was. *)
Theorem XmlNode_copy_is_deep_and_detached h t this node :
  repr h t node -> h !! this = None ->
  exists h' n',
    XmlNode_copy (height t) this node h = Some h' /\
    repr h' t this /\
    h' !! this = Some n' /\ parent n' = None /\
    (forall a x, h !! a = Some x -> h' !! a = Some x) /\
    repr h' t node /\
    (forall a f h'',
       h !! a = None -> call f a h' = Some h'' ->
       (forall b x, h !! b = Some x -> h'' !! b = Some x)
       /\ repr h'' t node) /\
    (forall a f x,
       h !! a = Some x ->
       exists h'', call f a h' = Some h'' /\ repr h'' t this) /\
    (forall k v,
       exists h'',
         call (set_attribute k v) this h' = Some h'' /\
         h'' !! this = Some (set_attribute k v n') /\
         repr h'' t node) /\
    (forall k v m,
       h !! node = Some m ->
       exists h'',
         call (set_attribute k v) node h' = Some h'' /\
         h'' !! node = Some (set_attribute k v m) /\
         repr h'' t this).
Proof.
  intros Hrepr Hthis.
  destruct (XmlNode_copy_spec t (height t) (le_n _) h this node Hrepr Hthis)
    as (hc & n' & Hcopy & Hdisj & Hc & Hn' & Hpar).
  exists (hc ∪ h), n'.
  assert (Hsub : h ⊆ hc ∪ h) by by apply map_union_subseteq_r.
  assert (Hold : forall a x, h !! a = Some x -> (hc ∪ h) !! a = Some x).
  { intros a x Hax. by eapply lookup_weaken. }
  assert (Hnew : forall a f h'',
    h !! a = None -> call f a (hc ∪ h) = Some h'' ->
    (forall b x, h !! b = Some x -> h'' !! b = Some x)
    /\ repr h'' t node).
  { intros a f h'' Ha Hcall. unfold call in Hcall.
    destruct ((hc ∪ h) !! a) as [y|]; [|done]. simpl in Hcall.
    injection Hcall as <-.
    assert (Hb : forall b x, h !! b = Some x ->
                   <[a := f y]> (hc ∪ h) !! b = Some x).
    { intros b x Hbx. rewrite lookup_insert_ne by congruence. by apply Hold. }
    split; [done|]. eapply repr_subseteq; [|exact Hrepr].
    by apply map_subseteq_spec. }
  assert (Hfor : forall a f x,
    h !! a = Some x ->
    exists h'', call f a (hc ∪ h) = Some h'' /\ repr h'' t this).
  { intros a f x Hax. eexists. split; [by apply call_Some, Hold|].
    eapply repr_subseteq; [|exact Hc].
    rewrite insert_union_r.
    - apply map_union_subseteq_l.
    - eapply map_disjoint_Some_r; [exact Hdisj|exact Hax]. }
  split; [done|]. split; [by eapply repr_subseteq, Hc; apply map_union_subseteq_l|].
  split; [by apply lookup_union_Some_l|]. split; [done|].
  split; [done|]. split; [by eapply repr_subseteq|].
  split; [done|]. split; [done|]. split.
  - intros k v.
    assert (Hcall : call (set_attribute k v) this (hc ∪ h)
                    = Some (<[this := set_attribute k v n']> (hc ∪ h))).
    { by apply call_Some, lookup_union_Some_l. }
    eexists. split; [exact Hcall|].
    split; [apply lookup_insert_eq|].
    by apply (Hnew this (set_attribute k v) _ Hthis Hcall).
  - intros k v m Hm.
    destruct (Hfor node (set_attribute k v) m Hm) as (h'' & Hcall & Hr).
    exists h''. split; [done|]. split; [|done].
    rewrite (call_Some _ _ _ m (Hold _ _ Hm)) in Hcall.
    injection Hcall as <-. apply lookup_insert_eq.
Qed.

Lemma XmlNode_copy_is_deep_and_detached_witness :
  repr Sample.attached Sample.message_tree Sample.root /\
  Sample.attached !! Sample.spare = None /\
  exists h' n',
    XmlNode_copy (height Sample.message_tree) Sample.spare Sample.root
      Sample.attached = Some h' /\
    repr h' Sample.message_tree Sample.spare /\
    h' !! Sample.spare = Some n' /\ parent n' = None /\
    repr h' Sample.message_tree Sample.root.
Proof.
  assert (Hrepr : repr Sample.attached Sample.message_tree Sample.root).
  { exists (push_back Sample.kid Sample.message).
    repeat split; try by vm_compute.
    exists (set_parent (Some Sample.root) Sample.body).
    repeat split; by vm_compute. }
  split; [exact Hrepr|]. split; [reflexivity|].
  destruct (XmlNode_copy_is_deep_and_detached _ _ Sample.spare _ Hrepr)
    as (h' & n' & Hcopy & Hnew & Hn' & Hpar & _ & Hold & _);
    [reflexivity|].
  exists h', n'. by repeat split.
Defined.

(** A child of an attached node, copied: the copy has no parent, the
    source keeps its own, and binding an attribute in the copy leaves the
    source as it was. *)
Example XmlNode_copy_of_attached :
  (h ← XmlNode_copy 1 Sample.spare Sample.kid Sample.attached;
   h' ← call (set_attribute "id" "7") Sample.spare h;
   copy ← h' !! Sample.spare;
   source ← h' !! Sample.kid;
   Some (parent copy, parent source, get_tag "id" copy, get_tag "id" source))
  = Some (None, Some Sample.root, "7", EmptyString).
Proof. by vm_compute. Qed.

End store_facts.

(** * Further properties *)

(** ** Escaping is lossless *)

Section escape_more.

Implicit Types s t : string.

Lemma str_length_app s t :
  String.length (s +:+ t) = String.length s + String.length t.
Proof. induction s as [|a s IH]; [done|]. rewrite str_app_cons. simpl. by rewrite IH. Qed.

Lemma entity_of_Some c e :
  entity_of c = Some e ->
  (c = "&"%char /\ e = "&amp;") \/ (c = "<"%char /\ e = "&lt;")
  \/ (c = ">"%char /\ e = "&gt;") \/ (c = "034"%char /\ e = "&quot;")
  \/ (c = "'"%char /\ e = "&apos;").
Proof.
  destruct c as [[] [] [] [] [] [] [] []]; vm_compute; intros [=]; subst;
    tauto.
Qed.

Lemma entity_of_None c :
  entity_of c = None ->
  c <> "&"%char /\ c <> "<"%char /\ c <> ">"%char /\ c <> "034"%char
  /\ c <> "'"%char.
Proof. intros Hc. repeat split; by intros ->. Qed.

Lemma xml_escape_spec_cons c s :
  xml_escape_spec (String c s) = escaped c +:+ xml_escape_spec s.
Proof. unfold escaped. simpl. by destruct (entity_of c). Qed.

(** The text of one byte tells the byte, whatever follows. *)
Lemma escaped_inj c1 c2 s1 s2 :
  escaped c1 +:+ s1 = escaped c2 +:+ s2 -> c1 = c2 /\ s1 = s2.
Proof.
  unfold escaped.
  destruct (entity_of c1) as [e1|] eqn:H1, (entity_of c2) as [e2|] eqn:H2.
  - apply entity_of_Some in H1, H2.
    destruct H1 as [[-> ->]|[[-> ->]|[[-> ->]|[[-> ->]|[-> ->]]]]];
      destruct H2 as [[-> ->]|[[-> ->]|[[-> ->]|[[-> ->]|[-> ->]]]]];
      cbv [String.append]; intros [=]; by subst.
  - apply entity_of_Some in H1. apply entity_of_None in H2.
    destruct H1 as [[-> ->]|[[-> ->]|[[-> ->]|[[-> ->]|[-> ->]]]]];
      cbv [String.append]; intros [=]; subst; tauto.
  - apply entity_of_Some in H2. apply entity_of_None in H1.
    destruct H2 as [[-> ->]|[[-> ->]|[[-> ->]|[[-> ->]|[-> ->]]]]];
      cbv [String.append]; intros [=]; subst; tauto.
  - cbv [String.append]. intros [=]. by subst.
Qed.

Lemma escaped_nonempty c s : escaped c +:+ s <> EmptyString.
Proof.
  unfold escaped. destruct (entity_of c) as [e|] eqn:He; [|done].
  apply entity_of_Some in He.
  by destruct He as [[-> ->]|[[-> ->]|[[-> ->]|[[-> ->]|[-> ->]]]]].
Qed.

Lemma xml_escape_spec_inj s t :
  xml_escape_spec s = xml_escape_spec t -> s = t.
Proof.
  revert t. induction s as [|c s IH]; intros [|d t].
  - done.
  - rewrite xml_escape_spec_cons. intros Heq. symmetry in Heq.
    by apply escaped_nonempty in Heq.
  - rewrite xml_escape_spec_cons. intros Heq.
    by apply escaped_nonempty in Heq.
  - rewrite !xml_escape_spec_cons.
    intros [-> Hst]%escaped_inj. by rewrite (IH _ Hst).
Qed.

Lemma escaped_length c :
  1 <= String.length (escaped c) /\
  (is_reserved c = true -> 4 <= String.length (escaped c)).
Proof.
  unfold escaped, is_reserved. destruct (entity_of c) as [e|] eqn:He.
  - apply entity_of_Some in He.
    destruct He as [[-> ->]|[[-> ->]|[[-> ->]|[[-> ->]|[-> ->]]]]];
      simpl; lia.
  - simpl. split; [lia|done].
Qed.

Lemma xml_escape_spec_length s :
  String.length s <= String.length (xml_escape_spec s) /\
  (unreserved s = false ->
   String.length s < String.length (xml_escape_spec s)).
Proof.
  induction s as [|c s [IH1 IH2]]; [done|].
  rewrite xml_escape_spec_cons, str_length_app.
  destruct (escaped_length c) as [Hc1 Hc4].
  split; [simpl; lia|]. simpl.
  destruct (is_reserved c); simpl.
  - intros _. specialize (Hc4 eq_refl). lia.
  - intros Hs. specialize (IH2 Hs). lia.
Qed.

(** X1. [xml_escape] loses nothing: two strings with the same escaped text
    are the same string, so an escaped text has one reading at most. *)
Theorem xml_escape_injective s t : xml_escape s = xml_escape t -> s = t.
Proof. rewrite !xml_escape_refines. apply xml_escape_spec_inj. Qed.

Lemma xml_escape_injective_witness :
  xml_escape "a<b" = xml_escape ("a" +:+ "<b") /\ "a<b" = "a" +:+ "<b".
Proof.
  split; [reflexivity|].
  apply (xml_escape_injective "a<b" ("a" +:+ "<b")). reflexivity.
Defined.

(** X2. [xml_escape] never shortens a text, and lengthens it as soon as
    one reserved character occurs in it.  Hence the texts it leaves as
    they are are exactly those with no reserved character, and so are the
    texts on which escaping twice is escaping once: an escaped text that
    is escaped again is changed whenever the first pass changed
    anything. *)
Theorem xml_escape_fixed_points s :
  String.length s <= String.length (xml_escape s) /\
  (unreserved s = false -> String.length s < String.length (xml_escape s)) /\
  (xml_escape s = s <-> unreserved s = true) /\
  (xml_escape (xml_escape s) = xml_escape s <-> unreserved s = true).
Proof.
  rewrite !xml_escape_refines.
  destruct (xml_escape_spec_length s) as [Hle Hlt].
  assert (Hfix : xml_escape_spec s = s <-> unreserved s = true).
  { split.
    - intros Heq. destruct (unreserved s) eqn:Hs; [done|].
      specialize (Hlt eq_refl). rewrite Heq in Hlt. lia.
    - intros Hs. rewrite <- xml_escape_refines.
      by apply xml_escape_unreserved. }
  split; [done|]. split; [done|]. split; [done|].
  rewrite <- Hfix. split.
  - apply xml_escape_spec_inj.
  - intros Heq. by rewrite !Heq.
Qed.

(** No byte among [<], [>], the double quote and the apostrophe is left in
    an escaped text. *)
Lemma xml_escape_no_delimiter c data :
  c = "<"%char \/ c = ">"%char \/ c = "034"%char \/ c = "'"%char ->
  Str.mem c (xml_escape data) = false.
Proof.
  intros Hc. rewrite xml_escape_refines.
  induction data as [|a data IH]; [done|].
  rewrite xml_escape_spec_cons, mem_app, IH, orb_false_r.
  unfold escaped. destruct (entity_of a) as [e|] eqn:He.
  - apply entity_of_Some in He.
    destruct He as [[-> ->]|[[-> ->]|[[-> ->]|[[-> ->]|[-> ->]]]]];
      by destruct Hc as [->|[->|[->| ->]]].
  - apply entity_of_None in He as (_ & ? & ? & ? & ?).
    rewrite mem_cons. simpl. rewrite orb_false_r.
    apply Ascii.eqb_neq. by destruct Hc as [->|[->|[->| ->]]].
Qed.

End escape_more.

(** ** Attributes *)

Section attribute_more.

Implicit Types (n : XmlNode) (k v : string).

Lemma del_tag_absent k n :
  attributes n !! k = None -> del_tag k n = (false, n).
Proof.
  intros Hk. unfold del_tag, StdMap.erase. rewrite Hk. by destruct n.
Qed.

Lemma del_tag_present k v n :
  attributes n !! k = Some v ->
  del_tag k n
  = (true, mkXmlNode (name n) (parent n) (delete k (attributes n))
             (children n) (inner n) (tail n)).
Proof. intros Hk. unfold del_tag, StdMap.erase. by rewrite Hk. Qed.

(** X3. The attribute accessors agree with one another.  [get_tag] reads
    what [set_attribute] bound last under the key and is blind to the other
    keys; binding a key again replaces its value; after [del_tag] the key
    reads as empty, the other keys read as before, and a second [del_tag]
    returns false; binding a key that was not bound and deleting it gives
    the node back.  [get_tag] reads empty both for a key that is not bound
    and for a key bound to the empty string. *)
Theorem attribute_accessors_agree k v n :
  get_tag k (set_attribute k v n) = v /\
  (forall k', k' <> k -> get_tag k' (set_attribute k v n) = get_tag k' n) /\
  (forall v', set_attribute k v' (set_attribute k v n) = set_attribute k v' n) /\
  get_tag k (del_tag k n).2 = EmptyString /\
  (forall k', k' <> k -> get_tag k' (del_tag k n).2 = get_tag k' n) /\
  (del_tag k (del_tag k n).2).1 = false /\
  (del_tag k (set_attribute k v n)).1 = true /\
  (attributes n !! k = None -> del_tag k (set_attribute k v n) = (true, n)) /\
  (get_tag k n = EmptyString <->
   attributes n !! k = None \/ attributes n !! k = Some EmptyString).
Proof.
  unfold get_tag, StdMap.at_.
  assert (Hdel : attributes (del_tag k n).2 = delete k (attributes n)).
  { destruct (attributes n !! k) as [w|] eqn:Hk.
    - by rewrite (del_tag_present _ _ _ Hk).
    - rewrite (del_tag_absent _ _ Hk). simpl. by rewrite delete_id. }
  assert (Hset : attributes (set_attribute k v n) !! k = Some v).
  { apply lookup_insert_eq. }
  split; [by rewrite Hset|]. split.
  { intros k' Hk'. simpl. unfold StdMap.assign.
    by rewrite lookup_insert_ne. }
  split.
  { intros v'. unfold set_attribute, StdMap.assign. simpl.
    by rewrite insert_insert_eq. }
  split; [by rewrite Hdel, lookup_delete_eq|]. split.
  { intros k' Hk'. by rewrite Hdel, lookup_delete_ne. }
  split.
  { rewrite del_tag_absent; [done|]. by rewrite Hdel, lookup_delete_eq. }
  split; [by rewrite (del_tag_present _ _ _ Hset)|]. split.
  { intros Hk. rewrite (del_tag_present _ _ _ Hset). f_equal.
    unfold set_attribute, StdMap.assign. simpl.
    rewrite delete_insert_eq, delete_id by done. by destruct n. }
  destruct (attributes n !! k) as [w|]; split.
  - intros ->. by right.
  - by intros [|[= ->]].
  - by left.
  - done.
Qed.

(** X4. [node[name]] reads what [get_tag] reads, and on a key that is
    bound it leaves the node as it is.  On a key that is not bound it binds
    the key to the empty string: the traversal of the attributes gains this
    binding at its place in key order, and [del_tag], which returned false
    before the access, returns true after it and gives the former node
    back. *)
Theorem subscript_binds_missing_key k n :
  (subscript k n).1 = get_tag k n /\
  get_tag k (subscript k n).2 = get_tag k n /\
  (is_Some (attributes n !! k) -> (subscript k n).2 = n) /\
  (attributes n !! k = None ->
     (subscript k n).2 = set_attribute k EmptyString n /\
     attributes (subscript k n).2 !! k = Some EmptyString /\
     StdMap.iter (attributes (subscript k n).2)
     = StdMap.assign_sorted k EmptyString (StdMap.iter (attributes n)) /\
     (del_tag k n).1 = false /\
     del_tag k (subscript k n).2 = (true, n)).
Proof.
  unfold subscript, StdMap.subscript, get_tag, StdMap.at_.
  destruct (attributes n !! k) as [w|] eqn:Hk; simpl.
  - rewrite Hk. split; [done|]. split; [done|].
    split; [by destruct n|done].
  - rewrite lookup_insert_eq. split; [done|]. split; [done|].
    split; [by intros [? ?]|]. intros _.
    split; [done|]. split; [done|].
    split; [apply iter_assign|].
    split; [by rewrite del_tag_absent|].
    erewrite del_tag_present by apply lookup_insert_eq. simpl.
    rewrite delete_insert_eq, delete_id by done. by destruct n.
Qed.

End attribute_more.

(** ** Serialization, further *)

Section serializer_more.

Context `{Encoding}.

Implicit Types (n : XmlNode) (h : store) (this : addr) (t : tree).

Lemma count_char_app c (s1 s2 : string) :
  count_char c (s1 +:+ s2) = count_char c s1 + count_char c s2.
Proof.
  induction s1 as [|a s1 IH]; [done|].
  rewrite str_app_cons. simpl. rewrite IH. lia.
Qed.

Lemma count_char_mem c (s : string) :
  Str.mem c s = false -> count_char c s = 0.
Proof.
  induction s as [|a s IH]; [done|]. simpl.
  intros [-> Hs]%orb_false_elim. by rewrite IH.
Qed.

(** X5. Whatever the collaborators do, the text [sanitize] returns holds
    none of the bytes [<], [>], double quote and apostrophe.  So the text
    the serializer writes for one attribute holds, besides the apostrophes
    of the key, exactly the two that delimit the value: a value cannot end
    its own quoting. *)
Theorem sanitize_leaves_no_delimiter data enc res k v :
  Str.mem "<"%char (sanitize data enc) = false /\
  Str.mem ">"%char (sanitize data enc) = false /\
  Str.mem "034"%char (sanitize data enc) = false /\
  Str.mem "'"%char (sanitize data enc) = false /\
  count_char "'"%char (render_attribute res (k, v))
  = count_char "'"%char res + count_char "'"%char k + 2.
Proof.
  assert (Hs : forall c d e,
    c = "<"%char \/ c = ">"%char \/ c = "034"%char \/ c = "'"%char ->
    Str.mem c (sanitize d e) = false).
  { intros c d e Hc. unfold sanitize.
    destruct (is_valid_utf8 _); by apply xml_escape_no_delimiter. }
  split; [apply Hs; tauto|]. split; [apply Hs; tauto|].
  split; [apply Hs; tauto|]. split; [apply Hs; tauto|].
  rewrite render_attribute_text. unfold attribute_text. simpl.
  rewrite !count_char_app.
  rewrite (count_char_mem _ (sanitize v default_encoding))
    by (apply Hs; tauto).
  simpl. lia.
Qed.

(** X6. [to_string] returns on every node that holds a tree, as soon as
    the fuel covers the height of the tree, and what it returns is the text
    of the tree as the specification lays it out.  The text depends
    neither on the fuel beyond that nor on the other objects of the store:
    adding objects or changing objects outside the tree leaves it as it
    was. *)
Theorem to_string_total_and_local h h' t this fuel fuel' :
  repr h t this -> height t <= fuel -> height t <= fuel' -> h ⊆ h' ->
  to_string fuel h this = Some (render t) /\
  to_string fuel' h this = to_string fuel h this /\
  to_string fuel h' this = to_string fuel h this.
Proof.
  intros Hrepr Hfuel Hfuel' Hsub.
  rewrite (to_string_render t fuel h this Hrepr Hfuel).
  rewrite (to_string_render t fuel' h this Hrepr Hfuel').
  rewrite (to_string_render t fuel h' this); [done| |done].
  by eapply repr_subseteq.
Qed.

(** X7. A copy is written as its source is: after the copy constructor,
    [to_string] returns the same text on the new node and on the source,
    the text the source had before. *)
Theorem XmlNode_copy_same_text h t this node fuel :
  repr h t node -> h !! this = None -> height t <= fuel ->
  exists h',
    XmlNode_copy fuel this node h = Some h' /\
    to_string fuel h node = Some (render t) /\
    to_string fuel h' this = Some (render t) /\
    to_string fuel h' node = Some (render t).
Proof.
  intros Hrepr Hthis Hfuel.
  destruct (XmlNode_copy_spec t fuel Hfuel h this node Hrepr Hthis)
    as (hc & n' & Hcopy & Hdisj & Hc & _).
  exists (hc ∪ h). split; [done|].
  split; [by apply to_string_render|]. split.
  - apply to_string_render; [|done].
    eapply repr_subseteq; [apply map_union_subseteq_l|done].
  - apply to_string_render; [|done].
    eapply repr_subseteq; [by apply map_union_subseteq_r|done].
Qed.

End serializer_more.

Lemma to_string_total_and_local_witness :
  repr Sample.attached Sample.message_tree Sample.root /\
  height Sample.message_tree <= 2 /\ height Sample.message_tree <= 5 /\
  Sample.attached ⊆ <[Sample.spare := Sample.leaf]> Sample.attached /\
  @to_string Utf8.encoding 2 Sample.attached Sample.root
  = Some (@render Utf8.encoding Sample.message_tree) /\
  @to_string Utf8.encoding 5 Sample.attached Sample.root
  = @to_string Utf8.encoding 2 Sample.attached Sample.root /\
  @to_string Utf8.encoding 2
    (<[Sample.spare := Sample.leaf]> Sample.attached) Sample.root
  = @to_string Utf8.encoding 2 Sample.attached Sample.root.
Proof.
  assert (Hrepr : repr Sample.attached Sample.message_tree Sample.root).
  { exists (push_back Sample.kid Sample.message).
    repeat split; try by vm_compute.
    exists (set_parent (Some Sample.root) Sample.body).
    repeat split; by vm_compute. }
  assert (H2 : height Sample.message_tree <= 2) by (simpl; lia).
  assert (H5 : height Sample.message_tree <= 5) by (simpl; lia).
  assert (Hsub : Sample.attached
                 ⊆ <[Sample.spare := Sample.leaf]> Sample.attached).
  { by apply insert_subseteq. }
  split; [exact Hrepr|]. split; [exact H2|]. split; [exact H5|].
  split; [exact Hsub|].
  exact (@to_string_total_and_local Utf8.encoding _ _ _ _ _ _
           Hrepr H2 H5 Hsub).
Defined.

Lemma XmlNode_copy_same_text_witness :
  repr Sample.attached Sample.message_tree Sample.root /\
  Sample.attached !! Sample.spare = None /\
  height Sample.message_tree <= 2 /\
  exists h',
    XmlNode_copy 2 Sample.spare Sample.root Sample.attached = Some h' /\
    @to_string Utf8.encoding 2 h' Sample.spare
    = Some (@render Utf8.encoding Sample.message_tree).
Proof.
  assert (Hrepr : repr Sample.attached Sample.message_tree Sample.root).
  { exists (push_back Sample.kid Sample.message).
    repeat split; try by vm_compute.
    exists (set_parent (Some Sample.root) Sample.body).
    repeat split; by vm_compute. }
  assert (H2 : height Sample.message_tree <= 2) by (simpl; lia).
  split; [exact Hrepr|]. split; [reflexivity|]. split; [exact H2|].
  destruct (@XmlNode_copy_same_text Utf8.encoding _ _ Sample.spare _ 2
              Hrepr eq_refl H2)
    as (h' & Hcopy & _ & Hnew & _).
  by exists h'.
Defined.

(** ** Lookup among the children *)

Section lookup_more.

Implicit Types (n p : XmlNode) (h : store) (this child : addr)
  (nm ns : string).

Lemma head_filter_Some {A} (f : A -> bool) (l : list A) x :
  head (List.filter f l) = Some x ->
  exists pre post,
    l = pre ++ x :: post /\ Forall (fun y => f y = false) pre /\ f x = true.
Proof.
  induction l as [|y l IH]; [done|]. simpl.
  destruct (f y) eqn:Hy; simpl.
  - intros [= ->]. by exists [], l.
  - intros (pre & post & -> & Hpre & Hx)%IH.
    exists (y :: pre), post. split; [done|]. split; [by constructor|done].
Qed.

Lemma head_filter_None {A} (f : A -> bool) (l : list A) :
  head (List.filter f l) = None <-> Forall (fun y => f y = false) l.
Proof.
  induction l as [|y l IH]; simpl.
  - split; [constructor|done].
  - destruct (f y) eqn:Hy; simpl.
    + split; [done|]. intros [? _]%Forall_cons. congruence.
    + rewrite IH. split; [by constructor|by intros [_ ?]%Forall_cons].
Qed.

Lemma get_child_loop_filter nm ns cs h :
  Forall (fun c => is_Some (h !! c)) cs ->
  get_child_loop nm ns cs h
  = Some (head (List.filter (child_matches nm ns h) cs)).
Proof.
  induction 1 as [|child cs [c Hc] _ IH]; [done|]. simpl.
  unfold child_matches at 1. rewrite Hc. simpl.
  by destruct (matches nm ns c).
Qed.

Lemma get_children_loop_filter nm ns cs h res :
  Forall (fun c => is_Some (h !! c)) cs ->
  for_each
    (fun child res =>
       c ← h !! child;
       Some (if matches nm ns c then res ++ [child] else res))
    cs res
  = Some (res ++ List.filter (child_matches nm ns h) cs).
Proof.
  intros Hcs. revert res.
  induction Hcs as [|child cs [c Hc] _ IH]; intros res; simpl.
  - by rewrite app_nil_r.
  - unfold child_matches at 1. rewrite Hc. simpl. rewrite IH.
    destruct (matches nm ns c); [|done]. by rewrite <- (assoc_L (++)).
Qed.

(** X8. On a node whose child pointers all lead to nodes, [get_children]
    returns the children that have the name and the namespace asked for,
    in the order of the child list, and [get_child] returns the first of
    them: every child before it fails the test.  [get_child] returns the
    null pointer exactly when no child passes the test. *)
Theorem get_child_is_first_of_get_children nm ns this h n :
  h !! this = Some n -> Forall (fun c => is_Some (h !! c)) (children n) ->
  get_children nm ns this h
  = Some (List.filter (child_matches nm ns h) (children n)) /\
  get_child nm ns this h
  = Some (head (List.filter (child_matches nm ns h) (children n))) /\
  (forall c,
     get_child nm ns this h = Some (Some c) ->
     exists pre post,
       children n = pre ++ c :: post /\
       Forall (fun c' => child_matches nm ns h c' = false) pre /\
       child_matches nm ns h c = true) /\
  (get_child nm ns this h = Some None <->
   Forall (fun c => child_matches nm ns h c = false) (children n)).
Proof.
  intros Hn Hcs. unfold get_children, get_child. rewrite Hn. simpl.
  rewrite (get_children_loop_filter _ _ _ _ [] Hcs).
  rewrite (get_child_loop_filter _ _ _ _ Hcs).
  split; [done|]. split; [done|]. split.
  - intros c [= Hc]. by apply head_filter_Some.
  - rewrite <- head_filter_None. split; [by intros [= ->]|by intros ->].
Qed.

Lemma get_child_is_first_of_get_children_witness :
  Sample.attached !! Sample.root = Some (push_back Sample.kid Sample.message)
  /\ Forall (fun c => is_Some (Sample.attached !! c))
       (children (push_back Sample.kid Sample.message)) /\
  get_child "body" EmptyString Sample.root Sample.attached
  = Some (head (List.filter
                  (child_matches "body" EmptyString Sample.attached)
                  (children (push_back Sample.kid Sample.message)))).
Proof.
  assert (Hcs : Forall (fun c => is_Some (Sample.attached !! c))
                  (children (push_back Sample.kid Sample.message))).
  { repeat constructor. by eexists. }
  split; [reflexivity|]. split; [exact Hcs|].
  destruct (get_child_is_first_of_get_children "body" EmptyString
              Sample.root Sample.attached _ eq_refl Hcs)
    as (_ & Hfirst & _).
  exact Hfirst.
Defined.

(** Attaching a child changes no name and no attribute: the test gives on
    every pointer what it gave. *)
Lemma child_matches_add_child nm ns h this child p (c : XmlNode) a :
  h !! this = Some p -> h !! child = Some c ->
  child_matches nm ns
    (<[this := push_back child
                 (if decide (child = this)
                  then set_parent (Some this) c else p)]>
       (<[child := set_parent (Some this) c]> h)) a
  = child_matches nm ns h a.
Proof.
  intros Hp Hc. unfold child_matches.
  destruct (decide (a = this)) as [->|Hat].
  - rewrite lookup_insert_eq, Hp.
    destruct (decide (child = this)) as [->|]; [|done].
    by assert (c = p) as -> by congruence.
  - rewrite lookup_insert_ne by done.
    destruct (decide (a = child)) as [->|Hac].
    + by rewrite lookup_insert_eq, Hc.
    + by rewrite lookup_insert_ne.
Qed.

(** X9. A node that has the name and the namespace asked for, attached to
    a parent none of whose children had them, is the child [get_child]
    returns afterwards, and the only one [get_children] returns. *)
Theorem get_child_finds_added_child h this child p (c : XmlNode) nm ns :
  h !! this = Some p -> h !! child = Some c ->
  matches nm ns c = true ->
  Forall (fun c' => is_Some (h !! c')) (children p) ->
  Forall (fun c' => child_matches nm ns h c' = false) (children p) ->
  exists h',
    add_child this child h = Some (child, h') /\
    get_child nm ns this h' = Some (Some child) /\
    get_children nm ns this h' = Some [child].
Proof.
  intros Hp Hc Hm Halive Hnone.
  rewrite (add_child_Some _ _ _ _ _ Hp Hc).
  eexists. split; [reflexivity|].
  assert (Hsame' := fun a => child_matches_add_child nm ns h this child p c a
                               Hp Hc).
  assert (exists q,
    q = push_back child
          (if decide (child = this) then set_parent (Some this) c else p)
    /\ children q = children p ++ [child]) as (q & Hq & Hkids).
  { eexists. split; [reflexivity|]. simpl.
    destruct (decide (child = this)) as [->|]; [|done].
    by assert (c = p) as -> by congruence. }
  rewrite <- Hq in Hsame' |- *.
  set (h' := <[this := q]> _) in *.
  assert (Hthis : h' !! this = Some q) by apply lookup_insert_eq.
  assert (Hsame : forall a, child_matches nm ns h' a = child_matches nm ns h a)
    by exact Hsame'.
  assert (Halive' : Forall (fun c' => is_Some (h' !! c'))
                      (children p ++ [child])).
  { apply Forall_app. split.
    - eapply Forall_impl; [exact Halive|]. intros a [x Hx]. unfold h'.
      destruct (decide (a = this)) as [->|]; [by rewrite lookup_insert_eq|].
      rewrite lookup_insert_ne by done.
      destruct (decide (a = child)) as [->|]; [by rewrite lookup_insert_eq|].
      by rewrite lookup_insert_ne.
    - repeat constructor. unfold h'.
      destruct (decide (child = this)) as [->|]; [by rewrite lookup_insert_eq|].
      by rewrite lookup_insert_ne, lookup_insert_eq. }
  assert (Hfilter : List.filter (child_matches nm ns h')
                      (children p ++ [child]) = [child]).
  { rewrite List.filter_app. simpl. rewrite Hsame.
    unfold child_matches at 2. rewrite Hc, Hm.
    assert (List.filter (child_matches nm ns h') (children p) = []) as ->;
      [|done].
    clear Halive Halive' Hkids Hthis.
    induction Hnone as [|a l Ha _ IH]; [done|]. simpl.
    by rewrite Hsame, Ha. }
  unfold get_child, get_children. rewrite Hthis. simpl.
  rewrite Hkids.
  rewrite (get_child_loop_filter _ _ _ _ Halive').
  rewrite (get_children_loop_filter _ _ _ _ [] Halive').
  by rewrite Hfilter.
Qed.

Lemma get_child_finds_added_child_witness :
  Sample.detached !! Sample.root = Some Sample.message /\
  Sample.detached !! Sample.kid = Some Sample.body /\
  matches "body" EmptyString Sample.body = true /\
  exists h',
    add_child Sample.root Sample.kid Sample.detached = Some (Sample.kid, h')
    /\ get_child "body" EmptyString Sample.root h' = Some (Some Sample.kid).
Proof.
  split; [reflexivity|]. split; [reflexivity|]. split; [reflexivity|].
  destruct (get_child_finds_added_child Sample.detached Sample.root
              Sample.kid Sample.message Sample.body "body" EmptyString)
    as (h' & Hadd & Hget & _);
    [reflexivity|reflexivity|reflexivity|constructor|constructor|].
  by exists h'.
Defined.

(** X10. What namespace the lookup sees in a node.  A node built by the
    constructor with a namespace, or by the one-string constructor from the
    namespace, the separator and a name without separator (the two give
    the same node), has that name and that namespace.  A node built from a
    plain name has the empty namespace, as has a node whose xmlns was
    deleted, and as has a node built with an empty namespace: the lookup
    does not tell a node without xmlns from a node with an empty one. *)
Theorem matches_sees_constructor_namespace nm ns par n :
  matches nm ns (XmlNode_ctor_ns ns nm par) = true /\
  (Str.mem sep nm = false ->
     XmlNode_ctor (ns +:+ String sep nm) par = XmlNode_ctor_ns ns nm par /\
     matches nm ns (XmlNode_ctor (ns +:+ String sep nm) par) = true /\
     matches nm EmptyString (XmlNode_ctor nm par) = true) /\
  matches nm EmptyString (XmlNode_ctor_ns EmptyString nm par) = true /\
  matches nm EmptyString (del_tag "xmlns" n).2 = String.eqb (name n) nm /\
  (forall nm' ns',
     matches nm' ns' (XmlNode_ctor_ns ns nm par) = true ->
     nm' = nm /\ ns' = ns).
Proof.
  assert (Hns : forall x, matches nm x (XmlNode_ctor_ns x nm par) = true).
  { intros x. unfold matches, get_tag, StdMap.at_. simpl.
    unfold StdMap.assign. by rewrite lookup_insert_eq, !String.eqb_refl. }
  split; [apply Hns|]. split.
  - intros Hsep.
    assert (Heq : XmlNode_ctor (ns +:+ String sep nm) par
                  = XmlNode_ctor_ns ns nm par).
    { unfold XmlNode_ctor. rewrite (rfind_app_last _ _ _ Hsep).
      by rewrite substr_from_app, substr_to_app. }
    split; [done|]. split; [by rewrite Heq|].
    unfold XmlNode_ctor. apply rfind_None in Hsep. rewrite Hsep.
    unfold matches, get_tag, StdMap.at_. simpl.
    by rewrite lookup_empty, String.eqb_refl.
  - split; [apply Hns|]. split.
    + unfold matches, get_tag, StdMap.at_.
      destruct (attributes n !! "xmlns") as [w|] eqn:Hw.
      * rewrite (del_tag_present _ _ _ Hw). simpl.
        rewrite lookup_delete_eq. simpl. by rewrite andb_true_r.
      * rewrite (del_tag_absent _ _ Hw). simpl. rewrite Hw.
        simpl. by rewrite andb_true_r.
    + intros nm' ns'. unfold matches, get_tag, StdMap.at_. simpl.
      unfold StdMap.assign. rewrite lookup_insert_eq.
      intros [?%String.eqb_eq ?%String.eqb_eq]%andb_prop. by subst.
Qed.

End lookup_more.

(** ** Attaching and the tree *)

Section attach_more.

Context `{Encoding}.

Implicit Types (n p : XmlNode) (h : store) (this child : addr) (t : tree).

Lemma children_text_app ts1 ts2 :
  children_text (ts1 ++ ts2) = children_text ts1 +:+ children_text ts2.
Proof.
  induction ts1 as [|t ts1 IH]; [done|]. simpl.
  unfold children_text in *. simpl. by rewrite IH, str_app_assoc.
Qed.

Lemma render_with_children nm attrs ts inn tl :
  ts <> [] ->
  render (Tree nm attrs ts inn tl)
  = "<" +:+ nm +:+ attributes_text (StdMap.iter attrs) +:+ ">"
    +:+ sanitize inn default_encoding +:+ children_text ts
    +:+ "</" +:+ nm +:+ ">" +:+ sanitize tl default_encoding.
Proof.
  intros Hts. destruct ts as [|t ts]; [done|].
  cbn [render t_name t_attributes t_children t_inner t_tail].
  unfold children_text. by rewrite !str_app_assoc.
Qed.

(** X11. Attaching, by owning pointer, a node that holds a tree to a
    parent that holds a tree, the parent being part of neither the child's
    tree nor its own children's, makes the parent hold its tree with the
    child's tree added as the last child.  Its text is then written with
    an opening and a closing tag, and the text of the new child stands last
    before the closing tag, after the inner text and the texts of the
    former children. *)
Theorem add_child_extends_tree h this child p ts tc fuel :
  h !! this = Some p ->
  Forall2 (repr (delete this h)) ts (children p) ->
  repr (delete this h) tc child ->
  height (Tree (name p) (attributes p) (ts ++ [tc]) (inner p) (tail p))
    <= fuel ->
  exists h',
    add_child this child h = Some (child, h') /\
    repr h'
      (Tree (name p) (attributes p) (ts ++ [tc]) (inner p) (tail p)) this /\
    to_string fuel h' this
    = Some ("<" +:+ name p +:+ attributes_text (StdMap.iter (attributes p))
            +:+ ">" +:+ sanitize (inner p) default_encoding
            +:+ children_text ts +:+ render tc
            +:+ "</" +:+ name p +:+ ">"
            +:+ sanitize (tail p) default_encoding).
Proof.
  intros Hp Hts Htc Hfuel.
  assert (exists c, h !! child = Some c /\ child <> this) as (c & Hc & Hne).
  { apply repr_unfold in Htc as (c & Hc & _).
    apply lookup_delete_Some in Hc as [? ?]. by exists c. }
  rewrite (add_child_Some _ _ _ _ _ Hp Hc), decide_False by done.
  eexists. split; [reflexivity|].
  set (h' := <[this := push_back child p]> _).
  assert (Hsub : <[child := set_parent (Some this) c]> (delete this h) ⊆ h').
  { apply map_subseteq_spec. intros a y Hay. unfold h'.
    assert (a <> this).
    { intros ->. rewrite lookup_insert_ne, lookup_delete_eq in Hay; done. }
    rewrite lookup_insert_ne by done.
    destruct (decide (a = child)) as [->|].
    - by rewrite lookup_insert_eq in Hay |- *.
    - rewrite lookup_insert_ne in Hay |- * by done.
      by apply lookup_delete_Some in Hay as [_ ?]. }
  assert (Hkeep : forall t a, repr (delete this h) t a -> repr h' t a).
  { intros t a Ht. eapply repr_subseteq; [exact Hsub|].
    eapply repr_update_content; [|apply same_content_set_parent|exact Ht].
    by apply lookup_delete_Some. }
  assert (Hrepr : repr h'
            (Tree (name p) (attributes p) (ts ++ [tc]) (inner p) (tail p))
            this).
  { apply repr_unfold. exists (push_back child p).
    split; [apply lookup_insert_eq|]. simpl. repeat split; try done.
    apply Forall2_app; [|by repeat constructor; apply Hkeep].
    eapply Forall2_impl; [exact Hts|]. intros t a. apply Hkeep. }
  split; [exact Hrepr|].
  rewrite (to_string_render _ _ _ _ Hrepr Hfuel).
  rewrite render_with_children by (by destruct ts).
  rewrite children_text_app. unfold children_text at 2. simpl.
  by rewrite str_app_nil_r, !str_app_assoc.
Qed.

End attach_more.

Lemma add_child_extends_tree_witness :
  Sample.detached !! Sample.root = Some Sample.message /\
  Forall2 (repr (delete Sample.root Sample.detached)) []
    (children Sample.message) /\
  repr (delete Sample.root Sample.detached) Sample.body_tree Sample.kid /\
  height (Tree (name Sample.message) (attributes Sample.message)
            ([] ++ [Sample.body_tree]) (inner Sample.message)
            (tail Sample.message)) <= 2 /\
  exists h',
    add_child Sample.root Sample.kid Sample.detached = Some (Sample.kid, h')
    /\ repr h'
         (Tree (name Sample.message) (attributes Sample.message)
            ([] ++ [Sample.body_tree]) (inner Sample.message)
            (tail Sample.message)) Sample.root.
Proof.
  assert (Hkid : repr (delete Sample.root Sample.detached) Sample.body_tree
                   Sample.kid).
  { exists Sample.body. repeat split; by vm_compute. }
  assert (Hfuel : height (Tree (name Sample.message)
                            (attributes Sample.message)
                            ([] ++ [Sample.body_tree]) (inner Sample.message)
                            (tail Sample.message)) <= 2)
    by (simpl; lia).
  assert (Hts : Forall2 (repr (delete Sample.root Sample.detached)) []
                  (children Sample.message)) by constructor.
  split; [reflexivity|]. split; [exact Hts|]. split; [exact Hkid|].
  split; [exact Hfuel|].
  destruct (@add_child_extends_tree Utf8.encoding Sample.detached
              Sample.root Sample.kid Sample.message [] Sample.body_tree 2
              eq_refl Hts Hkid Hfuel)
    as (h' & Hadd & Hrepr & _).
  by exists h'.
Defined.

(** ** Parent pointers *)

Section parent_more.

Implicit Types (n p : XmlNode) (h : store) (this child : addr).

(** X12. Attaching, by owning pointer, a node that no node lists as a
    child keeps the parent pointers in step with the child lists: if every
    child pointer of the store led to a node whose parent pointer led back,
    it is so again after the call. *)
Theorem add_child_keeps_well_parented h this child p (c : XmlNode) :
  well_parented h ->
  h !! this = Some p -> h !! child = Some c -> child <> this ->
  (forall a n, h !! a = Some n -> child ∉ children n) ->
  exists h', add_child this child h = Some (child, h') /\ well_parented h'.
Proof.
  intros Hwp Hp Hc Hne Hdet.
  rewrite (add_child_Some _ _ _ _ _ Hp Hc), decide_False by done.
  eexists. split; [reflexivity|].
  set (h' := <[this := push_back child p]> _).
  assert (Hother : forall x m,
    x <> child -> h !! x = Some m ->
    exists m', h' !! x = Some m' /\ parent m' = parent m).
  { intros x m Hx Hm. unfold h'.
    destruct (decide (x = this)) as [->|].
    - rewrite lookup_insert_eq. eexists. split; [done|]. simpl. congruence.
    - rewrite !lookup_insert_ne by done. by exists m. }
  assert (Hold : forall a n x,
    h !! a = Some n -> x ∈ children n ->
    exists m', h' !! x = Some m' /\ parent m' = Some a).
  { intros a n x Ha Hx.
    destruct (Hwp a n x Ha Hx) as (m & Hm & Hpar).
    destruct (Hother x m) as (m' & ? & ?); [|done|].
    - intros ->. by apply (Hdet a n).
    - exists m'. split; [done|congruence]. }
  intros a n x Ha Hx. unfold h' in Ha.
  destruct (decide (a = this)) as [->|Hat].
  - rewrite lookup_insert_eq in Ha. injection Ha as <-. simpl in Hx.
    apply elem_of_app in Hx as [Hx|Hx%list_elem_of_singleton].
    + by apply (Hold this p).
    + subst x. exists (set_parent (Some this) c). split; [|done].
      unfold h'. by rewrite lookup_insert_ne, lookup_insert_eq.
  - rewrite lookup_insert_ne in Ha by done.
    destruct (decide (a = child)) as [->|Hac].
    + rewrite lookup_insert_eq in Ha. injection Ha as <-. simpl in Hx.
      by apply (Hold child c).
    + rewrite lookup_insert_ne in Ha by done. by apply (Hold a n).
Qed.

Lemma add_child_keeps_well_parented_witness :
  well_parented Sample.detached /\
  Sample.detached !! Sample.root = Some Sample.message /\
  Sample.detached !! Sample.kid = Some Sample.body /\
  Sample.kid <> Sample.root /\
  exists h',
    add_child Sample.root Sample.kid Sample.detached = Some (Sample.kid, h')
    /\ well_parented h'.
Proof.
  assert (Hleaf : forall a n,
    Sample.detached !! a = Some n -> children n = []).
  { intros a n Ha. unfold Sample.detached in Ha.
    apply lookup_insert_Some in Ha as [[_ <-]|[_ Ha]]; [done|].
    by apply lookup_singleton_Some in Ha as [_ <-]. }
  assert (Hwp : well_parented Sample.detached).
  { intros a n x Ha Hx. rewrite (Hleaf a n Ha) in Hx.
    by apply elem_of_nil in Hx. }
  split; [exact Hwp|]. split; [reflexivity|]. split; [reflexivity|].
  split; [done|].
  apply (add_child_keeps_well_parented Sample.detached Sample.root
           Sample.kid Sample.message Sample.body Hwp eq_refl eq_refl);
    [done|].
  intros a n Ha Hx. rewrite (Hleaf a n Ha) in Hx.
  by apply elem_of_nil in Hx.
Defined.

(** X13. The move form sets the parent pointer of the node it creates and
    of no other.  A child of the node moved, whose parent pointer led to
    that node, is listed by the new node and still points to the node
    moved from: the parent pointers are no longer in step with the child
    lists. *)
Theorem add_child_move_leaves_children_behind h this child p (c : XmlNode)
    g gn :
  h !! this = Some p -> h !! child = Some c -> child <> this ->
  g ∈ children c -> h !! g = Some gn -> parent gn = Some child ->
  g <> this -> g <> child ->
  exists ret h' m,
    add_child_move this child h = Some (ret, h') /\
    ret <> child /\
    h' !! ret = Some m /\ g ∈ children m /\
    h' !! g = Some gn /\ get_parent gn = Some child /\
    get_parent gn <> Some ret /\
    ~ well_parented h'.
Proof.
  intros Hp Hc Hne Hg Hgn Hpar Hgt Hgc.
  destruct (add_child_move_attached h this child p c Hp Hc)
    as (ret & h' & Hadd & Hfresh & _ & Hret & _ & Hframe).
  assert (Hrc : ret <> child) by congruence.
  assert (Hgr : g <> ret) by congruence.
  assert (Hg' : h' !! g = Some gn) by by rewrite Hframe.
  exists ret, h', (set_parent (Some this) c).
  split; [done|]. split; [done|]. split; [done|]. split; [done|].
  split; [done|]. split; [done|].
  split; [unfold get_parent; congruence|].
  intros Hwp. destruct (Hwp ret _ g Hret Hg) as (m & Hm & Hpm).
  congruence.
Qed.

Lemma add_child_move_leaves_children_behind_witness :
  (<[Sample.spare := XmlNode_ctor_name "stream"]> Sample.attached)
    !! Sample.spare = Some (XmlNode_ctor_name "stream") /\
  (<[Sample.spare := XmlNode_ctor_name "stream"]> Sample.attached)
    !! Sample.root = Some (push_back Sample.kid Sample.message) /\
  Sample.kid ∈ children (push_back Sample.kid Sample.message) /\
  exists ret h' m,
    add_child_move Sample.spare Sample.root
      (<[Sample.spare := XmlNode_ctor_name "stream"]> Sample.attached)
    = Some (ret, h') /\
    h' !! ret = Some m /\ Sample.kid ∈ children m /\
    h' !! Sample.kid = Some (set_parent (Some Sample.root) Sample.body).
Proof.
  assert (Hin : Sample.kid ∈ children (push_back Sample.kid Sample.message)).
  { by apply list_elem_of_singleton. }
  split; [reflexivity|]. split; [reflexivity|]. split; [exact Hin|].
  destruct (add_child_move_leaves_children_behind
              (<[Sample.spare := XmlNode_ctor_name "stream"]> Sample.attached)
              Sample.spare Sample.root (XmlNode_ctor_name "stream")
              (push_back Sample.kid Sample.message) Sample.kid
              (set_parent (Some Sample.root) Sample.body))
    as (ret & h' & m & Hadd & _ & Hm & Hg & Hkid & _);
    [reflexivity|reflexivity|done|exact Hin|reflexivity|reflexivity|done|done|].
  by exists ret, h', m.
Defined.

(** X14. A builder that has children of its own, such as the nodes that
    builders nested in its block attached to it, leaves them with a parent
    pointer to itself when its destructor moves it into its parent: the
    node attached lists them, the builder is no more, and their parent
    pointer leads to no object. *)
Theorem XmlSubNode_dtor_leaves_dangling_parent h b P n g gn :
  h !! parent_to_add b = Some P -> h !! self b = Some n ->
  parent_to_add b <> self b ->
  g ∈ children n -> h !! g = Some gn -> parent gn = Some (self b) ->
  g <> parent_to_add b -> g <> self b ->
  exists attached h' m,
    XmlSubNode_dtor b h = Some (attached, h') /\
    h' !! attached = Some m /\ g ∈ children m /\
    h' !! g = Some gn /\
    get_parent gn = Some (self b) /\
    h' !! self b = None.
Proof.
  intros HP Hn Hne Hg Hgn Hpar Hgp Hgs.
  destruct (XmlSubNode_dtor_attaches h b P n HP Hn Hne)
    as (attached & h' & Hdtor & Hfresh & _ & _ & Hatt & Hgone & Hframe).
  assert (Hga : g <> attached) by congruence.
  exists attached, h', (set_parent (Some (parent_to_add b)) n).
  split; [done|]. split; [done|]. split; [done|].
  split; [by rewrite Hframe|]. by split.
Qed.

End parent_more.

(** ** Ownership and destruction *)

Section ownership_more.

Implicit Types (n p : XmlNode) (h hc hk hf : store) (this a : addr)
  (t : tree).

Lemma owns_repr_both :
  (forall hc t a, owns hc t a -> repr hc t a) /\
  (forall hk ts cs, owns_list hk ts cs -> Forall2 (repr hk) ts cs).
Proof.
  apply owns_mutind.
  - intros a n t hk Hnm Hat Hin Htl Ha _ IH.
    apply repr_unfold. exists n. rewrite lookup_insert_eq.
    repeat split; try done.
    eapply Forall2_impl; [exact IH|]. intros t' c.
    apply repr_subseteq. by apply insert_subseteq.
  - constructor.
  - intros h1 h2 t c ts cs _ IH1 _ IH2 Hdisj. constructor.
    + eapply repr_subseteq; [apply map_union_subseteq_l|done].
    + eapply Forall2_impl; [exact IH2|]. intros t' c'.
      apply repr_subseteq. by apply map_union_subseteq_r.
Qed.

Lemma owns_repr hc t a : owns hc t a -> repr hc t a.
Proof. apply owns_repr_both. Qed.

Lemma owns_root hc t a : owns hc t a -> is_Some (hc !! a).
Proof. intros Ho. inversion Ho; subst. by rewrite lookup_insert_eq. Qed.

Lemma destroy_S fuel a h :
  destroy (S fuel) a h
  = (n ← h !! a;
     h' ← for_each (destroy fuel) (children n) h;
     Some (delete a h')).
Proof. reflexivity. Qed.

Lemma destroy_owns_both :
  (forall hc t a, owns hc t a ->
     forall fuel hf, height t <= fuel -> hc ##ₘ hf ->
     destroy fuel a (hc ∪ hf) = Some hf) /\
  (forall hk ts cs, owns_list hk ts cs ->
     forall fuel hf, Forall (fun t => height t <= fuel) ts -> hk ##ₘ hf ->
     for_each (destroy fuel) cs (hk ∪ hf) = Some hf).
Proof.
  apply owns_mutind.
  - intros a n t hk _ _ _ _ Ha _ IH [|fuel] hf Hfuel Hdisj.
    { destruct t. simpl in Hfuel. lia. }
    apply map_disjoint_insert_l in Hdisj as [Hfa Hdisj].
    rewrite destroy_S.
    rewrite (lookup_union_Some_l _ _ _ n) by apply lookup_insert_eq.
    simpl.
    assert (Heq : <[a := n]> hk ∪ hf = hk ∪ <[a := n]> hf).
    { by rewrite <- insert_union_l, insert_union_r. }
    rewrite Heq, (IH fuel (<[a := n]> hf)).
    + simpl. by rewrite delete_insert_eq, delete_id.
    + apply Forall_forall. intros c Hc.
      pose proof (height_child t c Hc). lia.
    + by apply map_disjoint_insert_r_2.
  - intros fuel hf _ _. simpl. by rewrite (left_id_L ∅ (∪)).
  - intros h1 h2 t c ts cs _ IH1 _ IH2 Hdisj fuel hf
      [Ht Hts]%Forall_cons Hdisj'.
    apply map_disjoint_union_l in Hdisj' as [H1f H2f].
    simpl. rewrite <- (assoc_L (∪)), (IH1 fuel (h2 ∪ hf)); [|done|].
    + simpl. by apply IH2.
    + by apply map_disjoint_union_r_2.
Qed.

(** X15. Destroying a node that owns a tree ends the node and its
    descendants and nothing else: it returns, as soon as the fuel covers
    the height of the tree, and the store left is the store without the
    objects of the tree, every other object being as it was. *)
Theorem destroy_frees_exactly_the_tree hc hf t a fuel :
  owns hc t a -> hc ##ₘ hf -> height t <= fuel ->
  destroy fuel a (hc ∪ hf) = Some hf /\
  (forall b, is_Some (hc !! b) -> hf !! b = None) /\
  hf !! a = None.
Proof.
  intros Ho Hdisj Hfuel.
  split; [by apply (proj1 destroy_owns_both hc t a Ho)|].
  assert (Hgone : forall b, is_Some (hc !! b) -> hf !! b = None).
  { intros b [x Hx]. eapply map_disjoint_Some_l; [exact Hdisj|exact Hx]. }
  split; [done|]. by apply Hgone, (owns_root hc t).
Qed.

(** X16. [delete_all_children], on a node that owns a tree, ends every
    descendant of the node and nothing else; the node is left with an
    empty child list and with its name, parent pointer, attributes, inner
    and tail text as they were. *)
Theorem delete_all_children_frees_descendants hk hf ts this n fuel :
  owns_list hk ts (children n) ->
  hk !! this = None -> hf !! this = None -> hk ##ₘ hf ->
  Forall (fun t => height t <= fuel) ts ->
  delete_all_children fuel this (<[this := n]> (hk ∪ hf))
  = Some (<[this := clear n]> hf) /\
  has_children (clear n) = false /\
  name (clear n) = name n /\ parent (clear n) = parent n /\
  attributes (clear n) = attributes n /\
  inner (clear n) = inner n /\ tail (clear n) = tail n /\
  owns (<[this := clear n]> ∅)
    (Tree (name n) (attributes n) [] (inner n) (tail n)) this.
Proof.
  intros Ho Hk Hf Hdisj Hfuel.
  split; [|repeat split; try done; by repeat constructor].
  unfold delete_all_children. rewrite lookup_insert_eq. simpl.
  assert (Heq : <[this := n]> (hk ∪ hf) = hk ∪ <[this := n]> hf).
  { by rewrite insert_union_r. }
  rewrite Heq.
  rewrite (proj2 destroy_owns_both hk ts (children n) Ho fuel
             (<[this := n]> hf) Hfuel)
    by by apply map_disjoint_insert_r_2.
  simpl. rewrite (call_Some _ _ _ n) by apply lookup_insert_eq.
  by rewrite insert_insert_eq.
Qed.

Lemma owns_list_snoc h1 h2 ts cs t c :
  owns_list h1 ts cs -> owns h2 t c -> h1 ##ₘ h2 ->
  owns_list (h1 ∪ h2) (ts ++ [t]) (cs ++ [c]).
Proof.
  intros Hl. revert h2. induction Hl as [|h1 h1' t' c' ts cs Ho Hl IH Hd];
    intros h2 Ho2 Hdisj.
  - rewrite (left_id_L ∅ (∪)). simpl.
    rewrite <- (right_id_L ∅ (∪) h2).
    constructor; [done|constructor|apply map_disjoint_empty_r].
  - apply map_disjoint_union_l in Hdisj as [H1 H1'].
    rewrite <- (assoc_L (∪)). simpl. constructor; [done|by apply IH|].
    by apply map_disjoint_union_r_2.
Qed.

Lemma owns_set_root_parent hc t a n q :
  owns hc t a -> hc !! a = Some n ->
  owns (<[a := set_parent q n]> hc) t a.
Proof.
  intros Ho Hn. inversion Ho as [a' n' t' hk Hnm Hat Hin Htl Ha Hl]; subst.
  rewrite lookup_insert_eq in Hn. injection Hn as ->.
  rewrite insert_insert_eq. by constructor.
Qed.

Lemma well_parented_union h1 h2 :
  well_parented h1 -> well_parented h2 -> h1 ##ₘ h2 ->
  well_parented (h1 ∪ h2).
Proof.
  intros H1 H2 Hdisj a n c Ha Hc.
  apply lookup_union_Some in Ha; [|done]. destruct Ha as [Ha|Ha].
  - destruct (H1 a n c Ha Hc) as (m & Hm & Hpar).
    exists m. split; [by apply lookup_union_Some_l|done].
  - destruct (H2 a n c Ha Hc) as (m & Hm & Hpar).
    exists m. split; [|done]. rewrite lookup_union_r; [done|].
    eapply map_disjoint_Some_r; [exact Hdisj|exact Hm].
Qed.

Lemma well_parented_set_root_parent h a n q :
  well_parented h -> h !! a = Some n -> parent n = None ->
  well_parented (<[a := set_parent q n]> h).
Proof.
  intros Hwp Hn Hpar b nb c Hb Hc.
  assert (Hca : c <> a).
  { intros ->.
    destruct (decide (b = a)) as [->|Hba].
    - rewrite lookup_insert_eq in Hb. injection Hb as <-. simpl in Hc.
      destruct (Hwp a n a Hn Hc) as (m & Hm & Hpm). congruence.
    - rewrite lookup_insert_ne in Hb by done.
      destruct (Hwp b nb a Hb Hc) as (m & Hm & Hpm). congruence. }
  rewrite lookup_insert_ne by done.
  destruct (decide (b = a)) as [->|Hba].
  - rewrite lookup_insert_eq in Hb. injection Hb as <-. simpl in Hc.
    by apply (Hwp a n).
  - rewrite lookup_insert_ne in Hb by done. by apply (Hwp b nb).
Qed.

Lemma well_parented_add_root hk this n :
  well_parented hk -> hk !! this = None ->
  Forall (fun c => exists m, hk !! c = Some m /\ parent m = Some this)
    (children n) ->
  well_parented (<[this := n]> hk).
Proof.
  intros Hwp Hthis Hkids a na c Ha Hc.
  assert (exists m, hk !! c = Some m /\ parent m = Some a) as (m & Hm & Hpm).
  { destruct (decide (a = this)) as [->|Hat].
    - rewrite lookup_insert_eq in Ha. injection Ha as <-.
      rewrite Forall_forall in Hkids. by apply Hkids.
    - rewrite lookup_insert_ne in Ha by done. by apply (Hwp a na). }
  exists m. split; [|done].
  rewrite lookup_insert_ne; [done|]. congruence.
Qed.

(** The loop of the copy constructor, with what it owns. *)
Lemma XmlNode_copy_children_owned fuel h this ts cs :
  h !! this = None ->
  Forall2 (repr h) ts cs -> Forall (copy_owned fuel) ts ->
  forall hk m ts0,
    hk ##ₘ h -> hk !! this = None ->
    owns_list hk ts0 (children m) -> well_parented hk ->
    Forall (fun c => exists mc, hk !! c = Some mc /\ parent mc = Some this)
      (children m) ->
    exists hk' ps,
      for_each
        (fun child h1 =>
           let p := fresh (dom h1) in
           h2 ← XmlNode_copy fuel p child h1;
           snd <$> add_child this p h2)
        cs (<[this := m]> hk ∪ h)
      = Some (<[this := mkXmlNode (name m) (parent m) (attributes m)
                          (children m ++ ps) (inner m) (tail m)]> hk' ∪ h) /\
      hk' ##ₘ h /\ hk' !! this = None /\
      owns_list hk' (ts0 ++ ts) (children m ++ ps) /\
      well_parented hk' /\
      Forall (fun c => exists mc, hk' !! c = Some mc /\ parent mc = Some this)
        (children m ++ ps).
Proof.
  intros Hthis Hcs. induction Hcs as [|t' c ts cs Hc _ IHcs].
  - intros _ hk m ts0 Hdisj Hk Ho Hwp Hpar. exists hk, []. simpl.
    rewrite !app_nil_r. split; [by destruct m|done].
  - intros [Hok Hoks]%Forall_cons hk m ts0 Hdisj Hk Ho Hwp Hpar.
    cbn [for_each].
    set (S0 := <[this := m]> hk ∪ h).
    set (p := fresh (dom S0)).
    assert (Hp : S0 !! p = None) by apply not_elem_of_dom, is_fresh.
    assert (HS0this : S0 !! this = Some m).
    { apply lookup_union_Some_l, lookup_insert_eq. }
    assert (Hpt : p <> this) by congruence.
    assert (Hdisj0 : <[this := m]> hk ##ₘ h).
    { by apply map_disjoint_insert_l_2. }
    destruct (Hok S0 p c)
      as (hcc & n' & Hcopy & Hdisj' & Hown & Hwpc & Hn' & Hparn');
      [|done|].
    { eapply repr_subseteq; [|done]. by apply map_union_subseteq_r. }
    assert (Hcc_this : hcc !! this = None).
    { eapply map_disjoint_Some_r; [exact Hdisj'|exact HS0this]. }
    apply map_disjoint_union_r in Hdisj' as [Hcc_k Hcc_h].
    apply map_disjoint_insert_r in Hcc_k as [_ Hcc_k].
    apply lookup_union_None in Hp as [Hpk Hph].
    rewrite lookup_insert_ne in Hpk by done.
    simpl. fold S0. fold p. rewrite Hcopy. simpl.
    rewrite (add_child_Some _ _ _ m n'); cycle 1.
    { by rewrite lookup_union_r. }
    { by apply lookup_union_Some_l. }
    rewrite decide_False by done. simpl.
    set (A := <[p := set_parent (Some this) n']> hcc).
    assert (HA_this : A !! this = None).
    { unfold A. by rewrite lookup_insert_ne. }
    assert (HA_k : hk ##ₘ A).
    { unfold A. by apply map_disjoint_insert_r_2. }
    assert (HA_h : A ##ₘ h).
    { unfold A. by apply map_disjoint_insert_l_2. }
    assert (Heq : <[this := push_back p m]>
                    (<[p := set_parent (Some this) n']> (hcc ∪ S0))
                  = <[this := push_back p m]> (hk ∪ A) ∪ h).
    { unfold S0. rewrite insert_union_l. fold A.
      rewrite insert_union_r by done.
      rewrite insert_union_l, insert_insert_eq.
      rewrite (assoc_L (∪)).
      rewrite <- insert_union_r by done.
      by rewrite (map_union_comm A hk). }
    rewrite Heq.
    destruct (IHcs Hoks (hk ∪ A) (push_back p m) (ts0 ++ [t']))
      as (hk' & ps & Hloop & Hdisj2 & Hthis' & Hown' & Hwp' & Hpar').
    { by apply map_disjoint_union_l_2. }
    { by apply lookup_union_None. }
    { simpl. apply owns_list_snoc; [done| |done].
      by apply owns_set_root_parent. }
    { apply well_parented_union; [done| |done].
      by apply well_parented_set_root_parent. }
    { simpl. apply Forall_app. split.
      - eapply Forall_impl; [exact Hpar|]. intros x (mx & Hmx & ?).
        exists mx. split; [by apply lookup_union_Some_l|done].
      - repeat constructor. exists (set_parent (Some this) n').
        split; [|done]. rewrite lookup_union_r by done.
        apply lookup_insert_eq. }
    exists hk', (p :: ps). simpl in *.
    rewrite <- !(assoc_L (++)) in *. simpl in *.
    by repeat split.
Qed.

Lemma XmlNode_copy_owned t :
  forall fuel, height t <= fuel -> copy_owned fuel t.
Proof.
  induction t as [nm attrs ts inn tl IH] using tree_ind_nested.
  intros [|fuel] Hfuel; [simpl in Hfuel; lia|].
  intros h this node Hrepr Hthis.
  apply repr_unfold in Hrepr as (n & Hn & Hnm & Hat & Hin & Htl & Hcs).
  simpl in Hnm, Hat, Hin, Htl, Hcs.
  rewrite XmlNode_copy_S, Hn. simpl.
  set (init := mkXmlNode (name n) None (attributes n) [] (inner n) (tail n)).
  assert (Hoks : Forall (copy_owned fuel) ts).
  { apply Forall_forall. intros c Hc.
    rewrite Forall_forall in IH. apply IH; [done|].
    pose proof (height_child (Tree nm attrs ts inn tl) c Hc). lia. }
  destruct (XmlNode_copy_children_owned fuel h this ts (children n) Hthis
              Hcs Hoks ∅ init [])
    as (hk & ps & Hloop & Hdisj & Hk & Hown & Hwp & Hpar).
  { apply map_disjoint_empty_l. }
  { apply lookup_empty. }
  { constructor. }
  { intros a x c Ha. by rewrite lookup_empty in Ha. }
  { constructor. }
  rewrite <- (insert_union_l ∅ h this init), (left_id_L ∅ (∪)) in Hloop.
  simpl in Hloop, Hown, Hpar.
  eexists. eexists. split; [exact Hloop|].
  split; [by apply map_disjoint_insert_l_2|]. split.
  { by constructor. }
  split; [by apply well_parented_add_root|].
  split; [apply lookup_insert_eq|done].
Qed.

(** X17. The objects the copy constructor creates are the copy and
    nothing else: they are the new node and its descendants, each once,
    apart from the objects there were, and they hold the tree copied.
    Their parent pointers are in step with their child lists, the new root
    having none.  So the copy can be destroyed on its own: destroying it
    gives back the store there was before the copy. *)
Theorem XmlNode_copy_owns_its_tree h t this node fuel :
  repr h t node -> h !! this = None -> height t <= fuel ->
  exists hc n',
    XmlNode_copy fuel this node h = Some (hc ∪ h) /\
    hc ##ₘ h /\ owns hc t this /\ well_parented hc /\
    hc !! this = Some n' /\ get_parent n' = None /\
    destroy fuel this (hc ∪ h) = Some h.
Proof.
  intros Hrepr Hthis Hfuel.
  destruct (XmlNode_copy_owned t fuel Hfuel h this node Hrepr Hthis)
    as (hc & n' & Hcopy & Hdisj & Hown & Hwp & Hn' & Hpar).
  exists hc, n'. repeat split; try done.
  by apply (proj1 destroy_owns_both hc t this Hown).
Qed.

End ownership_more.

(** ** The further properties on the sample stores *)

Lemma attribute_accessors_agree_witness :
  attributes (XmlNode_ctor_name "iq") !! "id" = None /\
  del_tag "id" (set_attribute "id" "7" (XmlNode_ctor_name "iq"))
  = (true, XmlNode_ctor_name "iq") /\
  get_tag "id" (set_attribute "id" "7" (XmlNode_ctor_name "iq")) = "7".
Proof.
  split; [reflexivity|].
  destruct (attribute_accessors_agree "id" "7" (XmlNode_ctor_name "iq"))
    as (Hget & _ & _ & _ & _ & _ & _ & Hback & _).
  split; [apply Hback; reflexivity|exact Hget].
Defined.

Lemma subscript_binds_missing_key_witness :
  attributes (XmlNode_ctor_name "iq") !! "id" = None /\
  (subscript "id" (XmlNode_ctor_name "iq")).2
  = set_attribute "id" EmptyString (XmlNode_ctor_name "iq") /\
  del_tag "id" (subscript "id" (XmlNode_ctor_name "iq")).2
  = (true, XmlNode_ctor_name "iq").
Proof.
  split; [reflexivity|].
  destruct (subscript_binds_missing_key "id" (XmlNode_ctor_name "iq"))
    as (_ & _ & _ & Hmissing).
  destruct Hmissing as (Hset & _ & _ & _ & Hdel); [reflexivity|].
  by split.
Defined.

Lemma matches_sees_constructor_namespace_witness :
  Str.mem sep "query" = false /\
  XmlNode_ctor ("jabber:iq:roster" +:+ String sep "query") None
  = XmlNode_ctor_ns "jabber:iq:roster" "query" None /\
  matches "query" "jabber:iq:roster"
    (XmlNode_ctor ("jabber:iq:roster" +:+ String sep "query") None) = true.
Proof.
  split; [reflexivity|].
  destruct (matches_sees_constructor_namespace "query" "jabber:iq:roster"
              None (XmlNode_ctor_name "x"))
    as (_ & Hsplit & _).
  destruct Hsplit as (Heq & Hm & _); [reflexivity|].
  by split.
Defined.

Lemma XmlSubNode_dtor_leaves_dangling_parent_witness :
  exists (h : store) b P n gn,
    h !! parent_to_add b = Some P /\ h !! self b = Some n /\
    parent_to_add b <> self b /\
    Sample.spare ∈ children n /\ h !! Sample.spare = Some gn /\
    parent gn = Some (self b) /\
    exists attached h' m,
      XmlSubNode_dtor b h = Some (attached, h') /\
      h' !! attached = Some m /\ Sample.spare ∈ children m /\
      h' !! Sample.spare = Some gn /\
      get_parent gn = Some (self b) /\ h' !! self b = None.
Proof.
  exists {[Sample.root := Sample.message;
           Sample.kid := push_back Sample.spare (XmlNode_ctor_name "a");
           Sample.spare := XmlNode_ctor "b" (Some Sample.kid)]},
    (mkXmlSubNode Sample.kid Sample.root), Sample.message,
    (push_back Sample.spare (XmlNode_ctor_name "a")),
    (XmlNode_ctor "b" (Some Sample.kid)).
  assert (Hin : Sample.spare
                ∈ children (push_back Sample.spare (XmlNode_ctor_name "a"))).
  { by apply list_elem_of_singleton. }
  split; [reflexivity|]. split; [reflexivity|]. split; [done|].
  split; [exact Hin|]. split; [reflexivity|]. split; [reflexivity|].
  apply (XmlSubNode_dtor_leaves_dangling_parent _
           (mkXmlSubNode Sample.kid Sample.root) Sample.message
           (push_back Sample.spare (XmlNode_ctor_name "a")) Sample.spare
           (XmlNode_ctor "b" (Some Sample.kid)));
    [reflexivity|reflexivity|done|exact Hin|reflexivity|reflexivity|done|done].
Defined.

Lemma destroy_frees_exactly_the_tree_witness :
  owns (<[Sample.kid := Sample.body]> ∅) Sample.body_tree Sample.kid /\
  <[Sample.kid := Sample.body]> ∅
    ##ₘ ({[Sample.root := Sample.message]} : store) /\
  height Sample.body_tree <= 1 /\
  destroy 1 Sample.kid
    (<[Sample.kid := Sample.body]> ∅ ∪ {[Sample.root := Sample.message]})
  = Some {[Sample.root := Sample.message]}.
Proof.
  assert (Hown : owns (<[Sample.kid := Sample.body]> ∅) Sample.body_tree
                   Sample.kid).
  { constructor; try reflexivity. constructor. }
  assert (Hdisj : <[Sample.kid := Sample.body]> ∅
                  ##ₘ ({[Sample.root := Sample.message]} : store)).
  { apply map_disjoint_insert_l_2; [reflexivity|].
    apply map_disjoint_empty_l. }
  assert (Hfuel : height Sample.body_tree <= 1) by (simpl; lia).
  split; [exact Hown|]. split; [exact Hdisj|]. split; [exact Hfuel|].
  by destruct (destroy_frees_exactly_the_tree _ _ _ _ _ Hown Hdisj Hfuel)
    as [Hd _].
Defined.

Lemma delete_all_children_frees_descendants_witness :
  owns_list (<[Sample.kid := set_parent (Some Sample.root) Sample.body]> ∅ ∪ ∅)
    [Sample.body_tree] (children (push_back Sample.kid Sample.message)) /\
  Forall (fun t => height t <= 1) [Sample.body_tree] /\
  delete_all_children 1 Sample.root
    (<[Sample.root := push_back Sample.kid Sample.message]>
       ((<[Sample.kid := set_parent (Some Sample.root) Sample.body]> ∅ ∪ ∅)
        ∪ ∅))
  = Some (<[Sample.root := clear (push_back Sample.kid Sample.message)]> ∅).
Proof.
  assert (Hown : owns_list
            (<[Sample.kid := set_parent (Some Sample.root) Sample.body]> ∅ ∪ ∅)
            [Sample.body_tree]
            (children (push_back Sample.kid Sample.message))).
  { constructor; [|constructor|apply map_disjoint_empty_r].
    constructor; try reflexivity. constructor. }
  assert (Hfuel : Forall (fun t => height t <= 1) [Sample.body_tree]).
  { repeat constructor. }
  split; [exact Hown|]. split; [exact Hfuel|].
  destruct (delete_all_children_frees_descendants _ ∅ _ Sample.root _ 1 Hown)
    as [Hd _]; [reflexivity|reflexivity|apply map_disjoint_empty_r|exact Hfuel|].
  exact Hd.
Defined.

Lemma XmlNode_copy_owns_its_tree_witness :
  repr Sample.attached Sample.message_tree Sample.root /\
  Sample.attached !! Sample.spare = None /\
  height Sample.message_tree <= 2 /\
  exists hc,
    XmlNode_copy 2 Sample.spare Sample.root Sample.attached
    = Some (hc ∪ Sample.attached) /\
    owns hc Sample.message_tree Sample.spare /\
    destroy 2 Sample.spare (hc ∪ Sample.attached) = Some Sample.attached.
Proof.
  assert (Hrepr : repr Sample.attached Sample.message_tree Sample.root).
  { exists (push_back Sample.kid Sample.message).
    repeat split; try by vm_compute.
    exists (set_parent (Some Sample.root) Sample.body).
    repeat split; by vm_compute. }
  assert (H2 : height Sample.message_tree <= 2) by (simpl; lia).
  split; [exact Hrepr|]. split; [reflexivity|]. split; [exact H2|].
  destruct (XmlNode_copy_owns_its_tree _ _ Sample.spare _ 2 Hrepr eq_refl H2)
    as (hc & n' & Hcopy & _ & Hown & _ & _ & _ & Hdestroy).
  by exists hc.
Defined.

(** Copying a node and destroying the copy, on the sample store. *)
Example XmlNode_copy_then_destroy :
  (h ← XmlNode_copy 2 Sample.spare Sample.root Sample.attached;
   destroy 2 Sample.spare h)
  = Some Sample.attached.
Proof. by vm_compute. Qed.

(** [delete_all_children] on the sample store, and the text afterwards. *)
Example delete_all_children_sample :
  (h ← delete_all_children 1 Sample.root Sample.attached;
   s ← @to_string Utf8.encoding 1 h Sample.root;
   Some (map_to_list h, s))
  = Some ([(Sample.root, Sample.message)], "<message to='u@h'/>").
Proof. by vm_compute. Qed.

(** [get_children] keeps the order of the child list. *)
Example get_children_in_order :
  ('(_, h1) ← add_child Sample.root Sample.kid
                (<[Sample.spare := XmlNode_ctor_name "body"]> Sample.detached);
   '(_, h2) ← add_child Sample.root Sample.spare h1;
   all ← get_children "body" EmptyString Sample.root h2;
   first ← get_child "body" EmptyString Sample.root h2;
   missing ← get_child "subject" EmptyString Sample.root h2;
   Some (all, first, missing))
  = Some ([Sample.kid; Sample.spare], Some Sample.kid, None).
Proof. by vm_compute. Qed.
